(** * call-audit: the transcript-to-verdict pipeline of [app.py]

    A shallow embedding of [CallAuditApp] (rubric defaults, prompt
    construction, completion call, response decoding) and of the
    [/analyze] route that drives it, together with a model of the two
    functions of Python's [json] module the program calls
    ([json.loads] and [json.dumps]).

    Conventions.
    - A Python [str] is a list of Unicode code points ([list N]).
    - A Python [dict] produced by [json.loads] is an association list in
      insertion order with distinct keys.
    - Python [None] and JSON [null] are the same value, [JNull].
    - Binary64 arithmetic is not modelled: the conversions between
      floats and text are operations of a [FloatModel], and every
      statement holds for all of them.
    - Interpreter limits (recursion depth, the cap on the number of
      digits of an integer literal) are not modelled: [json.loads]
      either returns a value or raises [JSONDecodeError].
    - The content of a completion response is text.
    - Rendering of templates, sessions and file handling are reduced
      to the values the route reads and the page it chooses.

    The file goes from the model to facts about the [json] model
    (the budget of the scanner, [loads] after [dumps]), facts about
    the pipeline, the claims, further properties of the route, and
    runs on concrete inputs. *)

From Stdlib Require Import Ascii String List NArith ZArith Bool Lia.
From Stdlib Require Decimal DecimalFacts DecimalPos DecimalN.
Import ListNotations.

Local Open Scope N_scope.
Local Open Scope list_scope.

(** * The model *)

(** ** Python strings *)

Abbreviation char := N (only parsing).
Abbreviation str := (list N) (only parsing).

(** The code point of an ASCII character, and the [str] of an ASCII
    literal. *)
Definition ch (a : ascii) : char := N_of_ascii a.
Definition lit (s : string) : str := map N_of_ascii (list_ascii_of_string s).

Definition dquote : char := 34.
Definition backslash : char := 92.
Definition newline : char := 10.

Definition str_eqb (a b : str) : bool :=
  if list_eq_dec N.eq_dec a b then true else false.

Fixpoint starts_with (p s : str) : bool :=
  match p, s with
  | [], _ => true
  | _ :: _, [] => false
  | a :: p', b :: s' => (a =? b) && starts_with p' s'
  end.

(** [needle in haystack] on strings. *)
Fixpoint str_contains (needle hay : str) : bool :=
  starts_with needle hay ||
  match hay with
  | [] => false
  | _ :: hay' => str_contains needle hay'
  end.

(** [a] occurs in [b] as a contiguous run of characters. *)
Definition substring (a b : str) : Prop :=
  exists pre post, b = pre ++ a ++ post.

(** ** Floats, kept abstract *)

Class FloatModel := {
  float : Type;
  (** [float(lexeme)] for a lexeme of the JSON number grammar that has
      a fraction or an exponent. *)
  float_of_literal : str -> float;
  float_nan : float;
  float_inf : float;
  float_neg_inf : float;
  (** [json.encoder]'s [floatstr]: [float.__repr__], or one of [NaN],
      [Infinity], [-Infinity]. *)
  float_repr : float -> str;
  (** [f == 0.0], that is, [not f]. *)
  float_is_zero : float -> bool
}.

(** ** JSON values as Python objects *)

Section Values.
Context {FM : FloatModel}.

Unset Elimination Schemes.
Inductive json : Type :=
| JNull
| JBool (b : bool)
| JInt (z : Z)
| JFloat (f : float)
| JStr (s : str)
| JArr (xs : list json)
| JObj (kvs : list (str * json)).
Set Elimination Schemes.

Definition json_ind (P : json -> Prop)
  (Hnull : P JNull) (Hbool : forall b, P (JBool b))
  (Hint : forall z, P (JInt z)) (Hfloat : forall f, P (JFloat f))
  (Hstr : forall s, P (JStr s))
  (Harr : forall xs, Forall P xs -> P (JArr xs))
  (Hobj : forall kvs, Forall (fun kv => P (snd kv)) kvs -> P (JObj kvs)) :
  forall v, P v :=
  fix F (v : json) : P v :=
    match v with
    | JNull => Hnull
    | JBool b => Hbool b
    | JInt z => Hint z
    | JFloat f => Hfloat f
    | JStr s => Hstr s
    | JArr xs =>
        Harr xs ((fix G (l : list json) : Forall P l :=
                    match l with
                    | [] => Forall_nil _
                    | x :: l' => Forall_cons _ (F x) (G l')
                    end) xs)
    | JObj kvs =>
        Hobj kvs ((fix G (l : list (str * json)) :
                     Forall (fun kv => P (snd kv)) l :=
                     match l with
                     | [] => Forall_nil _
                     | kv :: l' => Forall_cons _ (F (snd kv)) (G l')
                     end) kvs)
    end.

(** Truth value of an object ([if x:], [x if x else y], [not x]). *)
Definition truthy (v : json) : bool :=
  match v with
  | JNull => false
  | JBool b => b
  | JInt z => negb (Z.eqb z 0)
  | JFloat f => negb (float_is_zero f)
  | JStr s => match s with [] => false | _ => true end
  | JArr xs => match xs with [] => false | _ => true end
  | JObj kvs => match kvs with [] => false | _ => true end
  end.

(** *** Dictionaries *)

Definition dict := list (str * json).

Fixpoint dict_get (d : dict) (k : str) : option json :=
  match d with
  | [] => None
  | (k', v) :: d' => if str_eqb k' k then Some v else dict_get d' k
  end.

(** [d[k] = v]: an existing key keeps its position. *)
Fixpoint dict_set (d : dict) (k : str) (v : json) : dict :=
  match d with
  | [] => [(k, v)]
  | (k', v') :: d' =>
      if str_eqb k' k then (k', v) :: d' else (k', v') :: dict_set d' k v
  end.

(** [dict(pairs)]. *)
Definition dict_of_pairs (pairs : list (str * json)) : dict :=
  fold_left (fun d kv => dict_set d (fst kv) (snd kv)) pairs [].

Definition dict_keys (d : dict) : list str := map fst d.

End Values.

(** ** [json.loads]

    The scanner of [json.decoder] and [json.scanner], read as a
    recursive-descent parser over the remaining input.  A [parsed]
    result is a value with the unread rest of the text, a failure
    ([JSONDecodeError]), or the exhaustion of the recursion budget. *)

Inductive parsed (A : Type) : Type :=
| Ok (a : A) (rest : str)
| Bad
| OutOfFuel.
Arguments Ok {A} a rest.
Arguments Bad {A}.
Arguments OutOfFuel {A}.

Definition is_ws (c : char) : bool :=
  (c =? 32) || (c =? 9) || (c =? 10) || (c =? 13).

Fixpoint skip_ws (s : str) : str :=
  match s with
  | c :: s' => if is_ws c then skip_ws s' else s
  | [] => []
  end.

Definition is_digit (c : char) : bool := (48 <=? c) && (c <=? 57).

Fixpoint span_digits (s : str) : str * str :=
  match s with
  | c :: s' =>
      if is_digit c then let (ds, r) := span_digits s' in (c :: ds, r)
      else ([], s)
  | [] => ([], [])
  end.

Definition digits_value (ds : str) : N :=
  fold_left (fun acc d => 10 * acc + (d - 48)) ds 0.

Definition hexval (c : char) : option N :=
  if is_digit c then Some (c - 48)
  else if (97 <=? c) && (c <=? 102) then Some (c - 87)
  else if (65 <=? c) && (c <=? 70) then Some (c - 55)
  else None.

Definition hex4 (a b c d : char) : option N :=
  match hexval a, hexval b, hexval c, hexval d with
  | Some x, Some y, Some z, Some w => Some (((x * 16 + y) * 16 + z) * 16 + w)
  | _, _, _, _ => None
  end.

Definition is_high_surrogate (u : N) : bool := (55296 <=? u) && (u <=? 56319).
Definition is_low_surrogate (u : N) : bool := (56320 <=? u) && (u <=? 57343).
Definition join_surrogates (hi lo : N) : N :=
  65536 + N.lor (N.shiftl (hi - 55296) 10) (lo - 56320).

(** The one-character escapes of [BACKSLASH]. *)
Definition unescape (e : char) : option char :=
  if e =? dquote then Some dquote
  else if e =? backslash then Some backslash
  else if e =? ch "/" then Some (ch "/")
  else if e =? ch "b" then Some 8
  else if e =? ch "f" then Some 12
  else if e =? ch "n" then Some 10
  else if e =? ch "r" then Some 13
  else if e =? ch "t" then Some 9
  else None.

Definition consr (c : char) (r : option (str * str)) : option (str * str) :=
  match r with
  | Some (cs, rest) => Some (c :: cs, rest)
  | None => None
  end.

(** [scanstring] in strict mode, started after the opening quote: the
    string's characters and the text after the closing quote. *)
Fixpoint scanstring (s : str) : option (str * str) :=
  match s with
  | [] => None
  | c :: s1 =>
      if c =? dquote then Some ([], s1)
      else if c =? backslash then
        match s1 with
        | [] => None
        | e :: s2 =>
            if e =? ch "u" then
              match s2 with
              | h1 :: h2 :: h3 :: h4 :: s3 =>
                  match hex4 h1 h2 h3 h4 with
                  | None => None
                  | Some u =>
                      if is_high_surrogate u then
                        match s3 with
                        | b :: u' :: l1 :: l2 :: l3 :: l4 :: s4 =>
                            if (b =? backslash) && (u' =? ch "u") then
                              match hex4 l1 l2 l3 l4 with
                              | None => None
                              | Some u2 =>
                                  if is_low_surrogate u2
                                  then consr (join_surrogates u u2) (scanstring s4)
                                  else consr u (scanstring s3)
                              end
                            else consr u (scanstring s3)
                        | _ => consr u (scanstring s3)
                        end
                      else consr u (scanstring s3)
                  end
              | _ => None
              end
            else
              match unescape e with
              | Some c' => consr c' (scanstring s2)
              | None => None
              end
        end
      else if c <? 32 then None
      else consr c (scanstring s1)
  end.

Section Loads.
Context {FM : FloatModel}.

(** [NUMBER_RE]: an optional minus sign and either a lone zero or a
    non-zero digit with more digits; then, optionally, a dot with at
    least one digit; then, optionally, an [e] or [E], a sign and at
    least one digit.  Each part is returned with the text after it. *)
Definition match_integer (s : str) : option (bool * str * str) :=
  let '(neg, s1) :=
    match s with
    | c :: r => if c =? ch "-" then (true, r) else (false, s)
    | [] => (false, s)
    end in
  match s1 with
  | d :: r =>
      if d =? ch "0" then Some (neg, [d], r)
      else if is_digit d then
        let (ds, r') := span_digits r in Some (neg, d :: ds, r')
      else None
  | [] => None
  end.

Definition match_frac (s : str) : str * str :=
  match s with
  | c :: r =>
      if c =? ch "." then
        match span_digits r with
        | ([], _) => ([], s)
        | (ds, r') => (c :: ds, r')
        end
      else ([], s)
  | [] => ([], s)
  end.

Definition match_exp (s : str) : str * str :=
  match s with
  | c :: r =>
      if (c =? ch "e") || (c =? ch "E") then
        let '(sign, r1) :=
          match r with
          | g :: r0 =>
              if (g =? ch "-") || (g =? ch "+") then ([g], r0) else ([], r)
          | [] => ([], r)
          end in
        match span_digits r1 with
        | ([], _) => ([], s)
        | (ds, r') => (c :: sign ++ ds, r')
        end
      else ([], s)
  | [] => ([], s)
  end.

Definition match_number (s : str) : option (json * str) :=
  match match_integer s with
  | None => None
  | Some (neg, ds, r) =>
      let (frac, r1) := match_frac r in
      let (exp, r2) := match_exp r1 in
      match frac, exp with
      | [], [] =>
          let n := Z.of_N (digits_value ds) in
          Some (JInt (if neg then Z.opp n else n), r2)
      | _, _ =>
          let lexeme := (if neg then [ch "-"] else []) ++ ds ++ frac ++ exp in
          Some (JFloat (float_of_literal lexeme), r2)
      end
  end.

(** [scan_once] with [JSONObject] and [JSONArray]; [parse_items] and
    [parse_members] are the two [while True] loops, entered at the
    first element and at the opening quote of the first key. *)
Fixpoint scan_once (fuel : nat) (s : str) {struct fuel} : parsed json :=
  match fuel with
  | O => OutOfFuel
  | S fuel' =>
      match s with
      | [] => Bad
      | c :: s1 =>
          if c =? dquote then
            match scanstring s1 with
            | Some (k, r) => Ok (JStr k) r
            | None => Bad
            end
          else if c =? ch "{" then
            match skip_ws s1 with
            | c2 :: s2 =>
                if c2 =? ch "}" then Ok (JObj []) s2
                else if c2 =? dquote then
                  match parse_members fuel' s2 with
                  | Ok pairs r => Ok (JObj (dict_of_pairs pairs)) r
                  | Bad => Bad
                  | OutOfFuel => OutOfFuel
                  end
                else Bad
            | [] => Bad
            end
          else if c =? ch "[" then
            match skip_ws s1 with
            | c2 :: s2 =>
                if c2 =? ch "]" then Ok (JArr []) s2
                else
                  match parse_items fuel' (c2 :: s2) with
                  | Ok xs r => Ok (JArr xs) r
                  | Bad => Bad
                  | OutOfFuel => OutOfFuel
                  end
            | [] => Bad
            end
          else if (c =? ch "n") && starts_with (lit "null") s
          then Ok JNull (skipn 4 s)
          else if (c =? ch "t") && starts_with (lit "true") s
          then Ok (JBool true) (skipn 4 s)
          else if (c =? ch "f") && starts_with (lit "false") s
          then Ok (JBool false) (skipn 5 s)
          else
            match match_number s with
            | Some (v, r) => Ok v r
            | None =>
                if (c =? ch "N") && starts_with (lit "NaN") s
                then Ok (JFloat float_nan) (skipn 3 s)
                else if (c =? ch "I") && starts_with (lit "Infinity") s
                then Ok (JFloat float_inf) (skipn 8 s)
                else if (c =? ch "-") && starts_with (lit "-Infinity") s
                then Ok (JFloat float_neg_inf) (skipn 9 s)
                else Bad
            end
      end
  end

with parse_items (fuel : nat) (s : str) {struct fuel} : parsed (list json) :=
  match fuel with
  | O => OutOfFuel
  | S fuel' =>
      match scan_once fuel' s with
      | Ok v r =>
          match skip_ws r with
          | c :: r1 =>
              if c =? ch "]" then Ok [v] r1
              else if c =? ch "," then
                match parse_items fuel' (skip_ws r1) with
                | Ok vs r2 => Ok (v :: vs) r2
                | Bad => Bad
                | OutOfFuel => OutOfFuel
                end
              else Bad
          | [] => Bad
          end
      | Bad => Bad
      | OutOfFuel => OutOfFuel
      end
  end

with parse_members (fuel : nat) (s : str) {struct fuel}
  : parsed (list (str * json)) :=
  match fuel with
  | O => OutOfFuel
  | S fuel' =>
      match scanstring s with
      | None => Bad
      | Some (key, r) =>
          match skip_ws r with
          | c :: r1 =>
              if c =? ch ":" then
                match scan_once fuel' (skip_ws r1) with
                | Ok v r2 =>
                    match skip_ws r2 with
                    | c2 :: r3 =>
                        if c2 =? ch "}" then Ok [(key, v)] r3
                        else if c2 =? ch "," then
                          match skip_ws r3 with
                          | c3 :: r4 =>
                              if c3 =? dquote then
                                match parse_members fuel' r4 with
                                | Ok kvs r5 => Ok ((key, v) :: kvs) r5
                                | Bad => Bad
                                | OutOfFuel => OutOfFuel
                                end
                              else Bad
                          | [] => Bad
                          end
                        else Bad
                    | [] => Bad
                    end
                | Bad => Bad
                | OutOfFuel => OutOfFuel
                end
              else Bad
          | [] => Bad
          end
      end
  end.

(** The budget [json_loads] gives the scanner: every nested call is
    made on a strictly shorter text. *)
Definition fuel_for (s : str) : nat := 2 * length s + 2.

(** [json.loads(s)] for a [str]: [Some v] when it returns [v], [None]
    when it raises [JSONDecodeError].  The budget never runs out
    ([json_loads_budget] below). *)
Definition json_loads (s : str) : option json :=
  if starts_with [65279] s then None
  else
    match scan_once (fuel_for s) (skip_ws s) with
    | Ok v r => match skip_ws r with [] => Some v | _ :: _ => None end
    | _ => None
    end.

End Loads.

(** ** [json.dumps]

    [json.encoder] with its default flags ([ensure_ascii], [allow_nan],
    no key sorting); [indent] is [None] or a number of spaces. *)

Definition hex_digit (n : N) : char := if n <? 10 then 48 + n else 87 + n.

(** The escape [\uXXXX] of a 16-bit unit, in lower-case hexadecimal. *)
Definition u_escape (n : N) : str :=
  [backslash; ch "u"; hex_digit (n / 4096); hex_digit ((n / 256) mod 16);
   hex_digit ((n / 16) mod 16); hex_digit (n mod 16)].

Definition escape_char (c : char) : str :=
  if c =? backslash then [backslash; backslash]
  else if c =? dquote then [backslash; dquote]
  else if c =? 8 then [backslash; ch "b"]
  else if c =? 12 then [backslash; ch "f"]
  else if c =? 10 then [backslash; ch "n"]
  else if c =? 13 then [backslash; ch "r"]
  else if c =? 9 then [backslash; ch "t"]
  else if (32 <=? c) && (c <=? 126) then [c]
  else if c <? 65536 then u_escape c
  else
    let n := c - 65536 in
    u_escape (N.lor 55296 (N.land (N.shiftr n 10) 1023)) ++
    u_escape (N.lor 56320 (N.land n 1023)).

(** [py_encode_basestring_ascii]. *)
Definition encode_basestring_ascii (s : str) : str :=
  dquote :: flat_map escape_char s ++ [dquote].

Fixpoint uint_chars (d : Decimal.uint) : str :=
  match d with
  | Decimal.Nil => []
  | Decimal.D0 d' => 48 :: uint_chars d'
  | Decimal.D1 d' => 49 :: uint_chars d'
  | Decimal.D2 d' => 50 :: uint_chars d'
  | Decimal.D3 d' => 51 :: uint_chars d'
  | Decimal.D4 d' => 52 :: uint_chars d'
  | Decimal.D5 d' => 53 :: uint_chars d'
  | Decimal.D6 d' => 54 :: uint_chars d'
  | Decimal.D7 d' => 55 :: uint_chars d'
  | Decimal.D8 d' => 56 :: uint_chars d'
  | Decimal.D9 d' => 57 :: uint_chars d'
  end.

(** [int.__repr__]. *)
Definition int_repr (z : Z) : str :=
  match z with
  | Zneg p => ch "-" :: uint_chars (Pos.to_uint p)
  | _ => uint_chars (N.to_uint (Z.to_N z))
  end.

Fixpoint join (sep : str) (parts : list str) : str :=
  match parts with
  | [] => []
  | [p] => p
  | p :: ps => p ++ sep ++ join sep ps
  end.

(** The line break and indentation written before an item at nesting
    depth [level]; nothing when [indent] is [None]. *)
Definition newline_indent (indent : option nat) (level : nat) : str :=
  match indent with
  | None => []
  | Some n => newline :: repeat 32 (n * level)
  end.

Definition item_separator (indent : option nat) : str :=
  match indent with
  | None => lit ", "
  | Some _ => lit ","
  end.

Definition key_separator : str := lit ": ".

Section Dumps.
Context {FM : FloatModel}.

Fixpoint encode (indent : option nat) (level : nat) (v : json) : str :=
  match v with
  | JNull => lit "null"
  | JBool true => lit "true"
  | JBool false => lit "false"
  | JInt z => int_repr z
  | JFloat f => float_repr f
  | JStr s => encode_basestring_ascii s
  | JArr [] => lit "[]"
  | JArr xs =>
      lit "[" ++ newline_indent indent (S level) ++
      join (item_separator indent ++ newline_indent indent (S level))
           (map (encode indent (S level)) xs) ++
      newline_indent indent level ++ lit "]"
  | JObj [] => lit "{}"
  | JObj kvs =>
      lit "{" ++ newline_indent indent (S level) ++
      join (item_separator indent ++ newline_indent indent (S level))
           (map (fun kv =>
                   encode_basestring_ascii (fst kv) ++ key_separator ++
                   encode indent (S level) (snd kv)) kvs) ++
      newline_indent indent level ++ lit "}"
  end.

(** [json.dumps(obj)] and [json.dumps(obj, indent=n)]. *)
Definition json_dumps (v : json) : str := encode None 0 v.
Definition json_dumps_indent (n : nat) (v : json) : str := encode (Some n) 0 v.

End Dumps.

(** ** A float model for evaluation

    Keeps the lexeme of a number: enough to run the definitions on
    concrete texts.  A lexeme denotes zero when every digit of its
    significand is [0]; binary64 underflow is ignored. *)

Inductive symfloat : Type :=
| SNaN
| SInf
| SNegInf
| SLexeme (lexeme : str).

Fixpoint significand_is_zero (s : str) : bool :=
  match s with
  | [] => true
  | c :: s' =>
      if (c =? ch "e") || (c =? ch "E") then true
      else if is_digit c && negb (c =? ch "0") then false
      else significand_is_zero s'
  end.

Definition symbolic_float : FloatModel := {|
  float := symfloat;
  float_of_literal := SLexeme;
  float_nan := SNaN;
  float_inf := SInf;
  float_neg_inf := SNegInf;
  float_repr := fun f =>
    match f with
    | SNaN => lit "NaN"
    | SInf => lit "Infinity"
    | SNegInf => lit "-Infinity"
    | SLexeme l => l
    end;
  float_is_zero := fun f =>
    match f with
    | SLexeme l => significand_is_zero l
    | _ => false
    end
|}.

(** ** Exceptions, results and the call trace

    A computation of the program yields the list of calls it made, in
    program order, to the completion client and to [json.loads], and
    either a value or the exception that left it. *)

Inductive exn : Type :=
| APIError (status : option N) (message : str)
| TypeError
| KeyError.

Inductive outcome (A : Type) : Type :=
| Return (a : A)
| Raise (e : exn).
Arguments Return {A} a.
Arguments Raise {A} e.

Record chat_request : Type := {
  model : str;
  system_content : str;
  user_content : str;
  response_format : str
}.

Inductive event : Type :=
| EvCompletion (req : chat_request)
| EvJsonLoads (text : str).

Definition M (A : Type) : Type := list event * outcome A.

Definition ret {A} (a : A) : M A := ([], Return a).
Definition raise {A} (e : exn) : M A := ([], Raise e).
Definition tell (ev : event) : M unit := ([ev], Return tt).
Definition lift {A} (o : outcome A) : M A := ([], o).

Definition bind {A B} (m : M A) (k : A -> M B) : M B :=
  match m with
  | (t, Raise e) => (t, Raise e)
  | (t, Return a) => let (t', r) := k a in (t ++ t', r)
  end.

Notation "x <- m ;; k" := (bind m (fun x => k))
  (at level 61, m at next level, right associativity).
Notation "m ;;; k" := (bind m (fun _ => k))
  (at level 61, right associativity).

Definition trace {A} (m : M A) : list event := fst m.
Definition result {A} (m : M A) : outcome A := snd m.

(** ** [CallAuditApp] *)

(** In the template text below a backquote stands for a double quote. *)
Definition qlit (s : string) : str :=
  map (fun c => if c =? 96 then dquote else c) (lit s).

Fixpoint lines (ls : list str) : str :=
  match ls with
  | [] => []
  | l :: ls' => l ++ newline :: lines ls'
  end.

Section App.
Context {FM : FloatModel}.

(** The client built by [OpenAI(api_key=...)]: one call of
    [chat.completions.create] either raises or returns a response, of
    which the program reads [choices[0].message.content]. *)
Variable OpenAI : str -> chat_request -> exn + str.

Record CallAuditApp : Type := { client : chat_request -> exn + str }.

Definition CallAuditApp_init (api_key : str) : CallAuditApp :=
  {| client := OpenAI api_key |}.

(** [default_criteria] (app.py, 78-91). *)
Definition default_criteria_entries : list (str * json) :=
  [
    (lit "greeting",
     JStr (lit "Did the agent use a proper greeting and introduce themselves?"));
    (lit "listening",
     JStr (lit "Did the agent actively listen to the customer's concerns?"));
    (lit "problem_solving",
     JStr (lit "Did the agent demonstrate effective problem-solving skills?"));
    (lit "knowledge",
     JStr (lit "Did the agent demonstrate sufficient product/service knowledge?"));
    (lit "empathy",
     JStr (lit "Did the agent show empathy and understanding?"));
    (lit "clarity",
     JStr (lit "Was the agent's communication clear and easy to understand?"));
    (lit "resolution",
     JStr (lit "Did the agent properly resolve the customer's issue?"));
    (lit "closing",
     JStr (lit "Did the agent provide a proper closing to the call?"));
    (lit "adherence_to_protocol",
     JStr (lit "Did the agent follow company protocols and procedures?"));
    (lit "professionalism",
     JStr (lit "Did the agent maintain professionalism throughout the call?"))
  ].

Definition default_criteria : json := JObj default_criteria_entries.

(** The f-string of [create_audit_prompt] (app.py, 45-76): the text
    before the criteria, between the criteria and the transcript, and
    after the transcript. *)
Definition prompt_head : str :=
  lines [
    [];
    lit "Please analyze the following customer support call transcript according to these criteria:";
    []
  ].

Definition prompt_middle : str :=
  lines [
    [];
    [];
    lit "Provide a detailed assessment for each criterion with specific examples from the transcript.";
    lit "For each criterion, provide a score from 1-10 and justify your rating.";
    lit "Also calculate an overall score and provide a summary of strengths and areas for improvement.";
    [];
    lit "Your response should be in JSON format with the following structure:";
    lit "{";
    qlit "    `overall_score`: <score>,";
    qlit "    `criteria_scores`: {";
    qlit "        `<criterion_name>`: {";
    qlit "            `score`: <score>,";
    qlit "            `assessment`: `<detailed assessment>`,";
    qlit "            `examples`: [`<example from transcript>`, ...]";
    lit "        },";
    lit "        ...";
    lit "    },";
    qlit "    `strengths`: [`<strength 1>`, ...],";
    qlit "    `areas_for_improvement`: [`<area 1>`, ...],";
    qlit "    `summary`: `<overall assessment summary>`";
    lit "}";
    [];
    lit "Here is the transcript:";
    []
  ].

Definition prompt_tail : str := [newline].

Definition create_audit_prompt (transcript : str) (criteria : json) : str :=
  prompt_head ++ json_dumps_indent 2 criteria ++ prompt_middle ++
  transcript ++ prompt_tail.

Definition system_message : str :=
  lit "You are an expert call center quality analyst. Your task is to analyze customer support call transcripts and provide objective feedback based on the provided criteria.".

(** The arguments of [self.client.chat.completions.create]
    (app.py, 29-36). *)
Definition request_for (prompt : str) : chat_request :=
  {| model := lit "gpt-4";
     system_content := system_message;
     user_content := prompt;
     response_format := lit "json_object" |}.

Definition completions_create (self : CallAuditApp) (prompt : str) : M str :=
  tell (EvCompletion (request_for prompt)) ;;;
  match client self (request_for prompt) with
  | inl e => raise e
  | inr content => ret content
  end.

Definition parse_failure (raw : str) : json :=
  JObj [(lit "error", JStr (lit "Failed to parse API response"));
        (lit "raw_response", JStr raw)].

(** The [try]/[except json.JSONDecodeError] that ends
    [analyze_transcript] (app.py, 38-43). *)
Definition decode (content : str) : M json :=
  tell (EvJsonLoads content) ;;;
  match json_loads content with
  | Some analysis => ret analysis
  | None => ret (parse_failure content)
  end.

(** The rubric after [if criteria is None: criteria =
    self.default_criteria()]. *)
Definition rubric_in_use (criteria : json) : json :=
  match criteria with
  | JNull => default_criteria
  | _ => criteria
  end.

(** The one request [analyze_transcript] makes. *)
Definition engine_request (transcript : str) (criteria : json)
  : chat_request :=
  request_for (create_audit_prompt transcript (rubric_in_use criteria)).

(** [analyze_transcript] (app.py, 20-43); [criteria] is [JNull] when
    the argument is left to its default. *)
Definition analyze_transcript (self : CallAuditApp) (transcript : str)
    (criteria : json) : M json :=
  let criteria := rubric_in_use criteria in
  let prompt := create_audit_prompt transcript criteria in
  content <- completions_create self prompt ;;
  decode content.

(** ** The report the prompt asks for

    The structure spelled out in the prompt and read by the results
    page: an overall score, a score with assessment and examples per
    criterion, strengths, areas for improvement and a summary. *)

Record criterion_score : Type := {
  score : Z;
  assessment : str;
  examples : list str
}.

Record AuditReport : Type := {
  overall_score : Z;
  criteria_scores : list (str * criterion_score);
  strengths : list str;
  areas_for_improvement : list str;
  summary : str
}.

Definition criterion_score_json (c : criterion_score) : json :=
  JObj [(lit "score", JInt (score c));
        (lit "assessment", JStr (assessment c));
        (lit "examples", JArr (map JStr (examples c)))].

Definition report_json (r : AuditReport) : json :=
  JObj [(lit "overall_score", JInt (overall_score r));
        (lit "criteria_scores",
         JObj (map (fun nc => (fst nc, criterion_score_json (snd nc)))
                   (criteria_scores r)));
        (lit "strengths", JArr (map JStr (strengths r)));
        (lit "areas_for_improvement",
         JArr (map JStr (areas_for_improvement r)));
        (lit "summary", JStr (summary r))].

(** ** The [/analyze] route *)

(** What the route reads: the API key stored for the session, if any;
    the text of an uploaded transcript file, if one was sent; and the
    two form fields, if present. *)
Record form : Type := {
  session_api_key : option str;
  transcript_file : option str;
  transcript_text : option str;
  custom_criteria : option str
}.

Inductive message : Type :=
| Text (s : str)
(** The f-string [Analysis error: ...] around [analysis['error']]. *)
| AnalysisError (detail : json).

Inductive response : Type :=
| Redirect (endpoint : str)
| RenderAudit (error : message) (transcript : option str)
    (criteria_text : option str)
| RenderResults (analysis : json) (transcript : str).

(** [request.form.get(field, default)]. *)
Definition form_get (field : option str) (default : str) : str :=
  match field with
  | Some s => s
  | None => default
  end.

(** The truth value of a [str]. *)
Definition nonempty (s : str) : bool :=
  match s with [] => false | _ :: _ => true end.

(** [needle in container]. *)
Definition contains (needle : str) (container : json) : outcome bool :=
  match container with
  | JObj d => Return (existsb (str_eqb needle) (dict_keys d))
  | JArr xs =>
      Return (existsb (fun x => match x with
                                | JStr s => str_eqb s needle
                                | _ => false
                                end) xs)
  | JStr s => Return (str_contains needle s)
  | _ => Raise TypeError
  end.

(** [container[key]] for a [str] key. *)
Definition getitem (container : json) (key : str) : outcome json :=
  match container with
  | JObj d =>
      match dict_get d key with
      | Some v => Return v
      | None => Raise KeyError
      end
  | _ => Raise TypeError
  end.

(** The transcript, from the uploaded file or from the text area
    (app.py, 132-145). *)
Definition request_transcript (request : form) : str :=
  match transcript_file request with
  | Some contents => contents
  | None => form_get (transcript_text request) []
  end.

(** [request.form.get('custom_criteria', '')]. *)
Definition criteria_text_of (request : form) : str :=
  form_get (custom_criteria request) [].

(** The end of the route, from the call of the engine on (app.py,
    160-168); [custom] is the value of [custom_criteria] after the
    optional parse. *)
Definition audit_and_render (auditor : CallAuditApp)
    (transcript criteria_text : str) (custom : json) : M response :=
  analysis <- analyze_transcript auditor transcript
                (if truthy custom then custom else JNull) ;;
  has_error <- lift (contains (lit "error") analysis) ;;
  if has_error : bool then
    detail <- lift (getitem analysis (lit "error")) ;;
    ret (RenderAudit (AnalysisError detail) (Some transcript)
           (Some criteria_text))
  else ret (RenderResults analysis transcript).

(** The part of [audit_and_render] that follows the engine, as a
    function of the engine's value. *)
Definition render (analysis : json) (transcript criteria_text : str)
  : outcome response :=
  match contains (lit "error") analysis with
  | Raise e => Raise e
  | Return true =>
      match getitem analysis (lit "error") with
      | Raise e => Raise e
      | Return detail =>
          Return (RenderAudit (AnalysisError detail) (Some transcript)
                    (Some criteria_text))
      end
  | Return false => Return (RenderResults analysis transcript)
  end.

Definition invalid_criteria : message :=
  Text (lit "Invalid JSON format for custom criteria").

(** The page that refuses the custom criteria. *)
Definition refusal (request : form) : outcome response :=
  Return (RenderAudit invalid_criteria (Some (request_transcript request))
            (Some (criteria_text_of request))).

(** [analyze] (app.py, 123-168). *)
Definition analyze (request : form) : M response :=
  match session_api_key request with
  | None => ret (Redirect (lit "index"))
  | Some api_key =>
      let auditor := CallAuditApp_init api_key in
      let transcript := request_transcript request in
      if negb (nonempty transcript) then
        ret (RenderAudit (Text (lit "No transcript provided")) None None)
      else
        let criteria_text := criteria_text_of request in
        if nonempty criteria_text then
          tell (EvJsonLoads criteria_text) ;;;
          match json_loads criteria_text with
          | Some custom =>
              audit_and_render auditor transcript criteria_text custom
          | None =>
              ret (RenderAudit invalid_criteria (Some transcript)
                     (Some criteria_text))
          end
        else audit_and_render auditor transcript criteria_text (JObj [])
  end.

(** The prompts a computation sent to the completion service. *)
Fixpoint prompts (t : list event) : list str :=
  match t with
  | [] => []
  | EvCompletion req :: t' => user_content req :: prompts t'
  | EvJsonLoads _ :: t' => prompts t'
  end.

End App.

(** ** Sessions and the stored API keys

    [api_key_storage] is a dictionary shared by all clients; the Flask
    session is a cookie each client holds, of which the program uses
    the entry [session_id] alone.  A client is named by a number. *)

Definition store (V : Type) : Type := list (str * V).

Fixpoint store_get {V} (d : store V) (k : str) : option V :=
  match d with
  | [] => None
  | (k', v) :: d' => if str_eqb k' k then Some v else store_get d' k
  end.

(** [d[k] = v]. *)
Fixpoint store_set {V} (d : store V) (k : str) (v : V) : store V :=
  match d with
  | [] => [(k, v)]
  | (k', v') :: d' =>
      if str_eqb k' k then (k', v) :: d' else (k', v') :: store_set d' k v
  end.

(** [del d[k]], for a key that is present. *)
Fixpoint store_del {V} (d : store V) (k : str) : store V :=
  match d with
  | [] => []
  | (k', v) :: d' =>
      if str_eqb k' k then store_del d' k else (k', v) :: store_del d' k
  end.

Record world : Type := {
  api_key_storage : store str;
  session_id : nat -> option str
}.

(** The cookie of client [c] after [session['session_id'] = v] or
    [session.clear()]. *)
Definition with_session_id (w : world) (c : nat) (v : option str)
  : nat -> option str :=
  fun c' => if Nat.eqb c' c then v else session_id w c'.

(** The pages of the routes other than [/analyze]. *)
Inductive page : Type :=
| GoTo (endpoint : str)
| IndexPage (error : option str)
| AuditPage.

(** [index] (app.py, 96-99). *)
Definition index : page := IndexPage None.

(** [set_api_key] (app.py, 101-113); [new_id] is the value of
    [str(uuid.uuid4())]. *)
Definition set_api_key (c : nat) (api_key : option str) (new_id : str)
    (w : world) : world * page :=
  if nonempty (form_get api_key []) then
    ({| api_key_storage :=
          store_set (api_key_storage w) new_id (form_get api_key []);
        session_id := with_session_id w c (Some new_id) |},
     GoTo (lit "audit_form"))
  else (w, IndexPage (Some (lit "API key is required"))).

(** The key of the session of client [c]: [None] when ['session_id'
    not in session or session['session_id'] not in api_key_storage],
    and [api_key_storage[session['session_id']]] otherwise. *)
Definition session_key (c : nat) (w : world) : option str :=
  match session_id w c with
  | Some sid => store_get (api_key_storage w) sid
  | None => None
  end.

(** [audit_form] (app.py, 115-121). *)
Definition audit_form (c : nat) (w : world) : page :=
  match session_key c w with
  | Some _ => AuditPage
  | None => GoTo (lit "index")
  end.

(** [logout] (app.py, 170-176). *)
Definition logout (c : nat) (w : world) : world * page :=
  ({| api_key_storage :=
        match session_id w c with
        | Some sid =>
            match store_get (api_key_storage w) sid with
            | Some _ => store_del (api_key_storage w) sid
            | None => api_key_storage w
            end
        | None => api_key_storage w
        end;
      session_id := with_session_id w c None |},
   GoTo (lit "index")).

(** What [/analyze] reads when client [c] sends the fields of
    [request]: the key comes from the session and the store. *)
Definition in_session (c : nat) (w : world) (request : form) : form :=
  {| session_api_key := session_key c w;
     transcript_file := transcript_file request;
     transcript_text := transcript_text request;
     custom_criteria := custom_criteria request |}.

(** The requests clients send to the routes that change the world, and
    the world after a sequence of them. *)
Inductive action : Type :=
| SetApiKey (api_key : option str) (new_id : str)
| Logout.

Definition act (w : world) (ca : nat * action) : world :=
  match snd ca with
  | SetApiKey api_key new_id => fst (set_api_key (fst ca) api_key new_id w)
  | Logout => fst (logout (fst ca) w)
  end.

Definition run (w : world) (l : list (nat * action)) : world :=
  fold_left act l w.

(** The world when the program starts: [api_key_storage = {}] and no
    client has a session. *)
Definition initial_world : world :=
  {| api_key_storage := []; session_id := fun _ => None |}.

(** The ids [uuid4] hands out in a sequence of requests. *)
Definition new_ids (l : list (nat * action)) : list str :=
  flat_map (fun ca => match snd ca with
                      | SetApiKey _ new_id => [new_id]
                      | Logout => []
                      end) l.

(** ** The uploaded transcript file

    The file system is a dictionary from paths to bytes.  Three things
    are left to the environment: [secure_filename], whether a path can
    be opened for writing, and the text a file's bytes decode to
    ([None] when reading raises [UnicodeDecodeError]). *)

Record upload : Type := {
  upload_name : str;
  upload_bytes : list N
}.

(** How [/analyze] ends: with the response of the rest of the route, or
    with an exception raised while the upload is saved or read. *)
Inductive route_end (A : Type) : Type :=
| Served (a : A)
| SaveFailed
| ReadFailed.
Arguments Served {A} a.
Arguments SaveFailed {A}.
Arguments ReadFailed {A}.

(** [os.path.join(a, b)] for a non-empty [a] that does not end with a
    slash. *)
Definition os_path_join (a b : str) : str :=
  if starts_with (lit "/") b then b else a ++ lit "/" ++ b.

Section Uploads.
Context {FM : FloatModel}.
Variable OpenAI : str -> chat_request -> exn + str.
Variable secure_filename : str -> str.
Variable writable : str -> bool.
Variable read_text : list N -> option str.

Definition upload_path (f : upload) : str :=
  os_path_join (lit "uploads") (secure_filename (upload_name f)).

(** [analyze] (app.py, 123-168) with its file handling (132-145):
    the files before and after, and how the route ends. *)
Definition analyze_upload (c : nat) (w : world) (files : store (list N))
    (file : option upload) (text criteria : option str)
  : store (list N) * route_end (M response) :=
  let rest (from_file : option str) :=
    analyze OpenAI {| session_api_key := session_key c w;
                      transcript_file := from_file;
                      transcript_text := text;
                      custom_criteria := criteria |} in
  match session_key c w with
  | None => (files, Served (rest None))
  | Some _ =>
      match file with
      | Some f =>
          if nonempty (upload_name f) then
            let file_path := upload_path f in
            if writable file_path then
              let saved := store_set files file_path (upload_bytes f) in
              match store_get saved file_path with
              | Some bytes =>
                  match read_text bytes with
                  | Some transcript =>
                      (store_del saved file_path,
                       Served (rest (Some transcript)))
                  | None => (saved, ReadFailed)
                  end
              | None => (saved, ReadFailed)
              end
            else (files, SaveFailed)
          else (files, Served (rest None))
      | None => (files, Served (rest None))
      end
  end.

End Uploads.

(** ** The value the route passes to the engine *)

Section Argument.
Context {FM : FloatModel}.

(** The custom criteria are accepted: the text is empty or is JSON. *)
Definition criteria_accepted (request : form) : bool :=
  negb (nonempty (criteria_text_of request)) ||
  match json_loads (criteria_text_of request) with
  | Some _ => true
  | None => false
  end.

(** [custom_criteria if custom_criteria else None], for accepted
    criteria. *)
Definition criteria_argument (request : form) : json :=
  if nonempty (criteria_text_of request) then
    match json_loads (criteria_text_of request) with
    | Some custom => if truthy custom then custom else JNull
    | None => JNull
    end
  else JNull.

(** A value without floats. *)
Fixpoint float_free (v : json) : bool :=
  match v with
  | JFloat _ => false
  | JArr xs => forallb float_free xs
  | JObj kvs => forallb (fun kv => float_free (snd kv)) kvs
  | _ => true
  end.

End Argument.

(** A character [json.dumps] writes as it is. *)
Definition is_plain (c : char) : bool :=
  (32 <=? c) && (c <=? 126) && negb (c =? dquote) && negb (c =? backslash).

Definition is_ascii (c : char) : bool := c <? 128.

(** ** Well-formed values and reports *)

(** A Unicode scalar value: a code point that is not a surrogate. *)
Definition is_scalar (c : char) : bool :=
  (c <? 55296) || ((57344 <=? c) && (c <? 1114112)).

(** The keys of a list of pairs are pairwise different. *)
Fixpoint distinct (ks : list str) : bool :=
  match ks with
  | [] => true
  | k :: ks' => negb (existsb (str_eqb k) ks') && distinct ks'
  end.

Section Shapes.
Context {FM : FloatModel}.

(** A value [json.dumps] writes back as it was read: no float, text
    made of scalar values, distinct keys in every object. *)
Fixpoint well_formed (v : json) : bool :=
  match v with
  | JNull | JBool _ | JInt _ => true
  | JFloat _ => false
  | JStr s => forallb is_scalar s
  | JArr xs => forallb well_formed xs
  | JObj kvs =>
      distinct (map fst kvs) &&
      forallb (fun kv => forallb is_scalar (fst kv) && well_formed (snd kv))
              kvs
  end.

Definition is_text (s : str) : bool := forallb is_scalar s.

(** A report whose texts are made of scalar values and whose criterion
    names are distinct. *)
Definition report_ok (r : AuditReport) : bool :=
  distinct (map fst (criteria_scores r)) &&
  forallb (fun nc =>
             is_text (fst nc) && is_text (assessment (snd nc)) &&
             forallb is_text (examples (snd nc)))
          (criteria_scores r) &&
  forallb is_text (strengths r) &&
  forallb is_text (areas_for_improvement r) &&
  is_text (summary r).


End Shapes.

(** ** Notions used in the proofs about the scanner *)

(** One step of [digits_value]. *)
Definition digit_step (acc d : N) : N := 10 * acc + (d - 48).

(** The text after a number must not continue it. *)
Definition number_ends (rest : str) : bool :=
  match rest with
  | [] => true
  | c :: _ =>
      negb (is_digit c || (c =? ch ".") || (c =? ch "e") || (c =? ch "E"))
  end.

(** A numeral without sign: a lone zero, or a non-zero digit followed
    by digits. *)
Definition is_numeral (ds : str) : Prop :=
  ds = [ch "0"] \/
  exists c cs, ds = c :: cs /\ is_digit c = true /\ c <> ch "0" /\
               forallb is_digit cs = true.

(** The text after a value inside [json.dumps] output, or at its end. *)
Definition delimited (rest : str) : bool :=
  match rest with
  | [] => true
  | c :: _ => is_ws c || (c =? ch ",") || (c =? ch "]") || (c =? ch "}")
  end.

(** The characters a JSON value can start with, floats aside. *)
Definition value_start (c : char) : bool :=
  is_digit c || (c =? ch "-") || (c =? dquote) || (c =? ch "{") ||
  (c =? ch "[") || (c =? ch "n") || (c =? ch "t") || (c =? ch "f").

(** A text that begins like a value. *)
Definition starts_value (s : str) : Prop :=
  exists c t, s = c :: t /\ value_start c = true.

Section ScannerNotions.
Context {FM : FloatModel}.

(** What the scanner is known to do on the text of one value. *)
Definition reads_back (enc : json -> str) (x : json) : Prop :=
  forall fuel rest, delimited rest = true ->
    (2 * length (enc x) < fuel)%nat ->
    scan_once fuel (enc x ++ rest) = Ok x rest.

(** How one member of an object is written, given the text of its
    value. *)
Definition member_text (enc : json -> str) (kv : str * json) : str :=
  encode_basestring_ascii (fst kv) ++ key_separator ++ enc (snd kv).

End ScannerNotions.

(** ** Data for concrete runs *)

(** A completion service that gives the same answer to every call. *)
Definition stub_service (reply : exn + str) : str -> chat_request -> exn + str :=
  fun _ _ => reply.

Definition example_transcript : str :=
  lit "Agent: Hello, how can I help? Customer: My order is late. Agent: I apologize, let me check... [resolves]".

Definition example_request (criteria : option str) : form :=
  {| session_api_key := Some (lit "sk-test");
     transcript_file := None;
     transcript_text := Some example_transcript;
     custom_criteria := criteria |}.

Definition anonymous_request : form :=
  {| session_api_key := None;
     transcript_file := None;
     transcript_text := Some example_transcript;
     custom_criteria := None |}.

Definition empty_request : form :=
  {| session_api_key := Some (lit "sk-test");
     transcript_file := None;
     transcript_text := None;
     custom_criteria := None |}.

Definition tone_rubric_text : str :=
  qlit "{`tone`: `Was the agent's tone friendly?`}".

Definition example_report : AuditReport :=
  {| overall_score := 8;
     criteria_scores :=
       [(lit "greeting",
         {| score := 9;
            assessment := lit "Greeted the customer.";
            examples := [lit "Hello, how can I help?"] |})];
     strengths := [lit "Polite"];
     areas_for_improvement := [lit "Speed"];
     summary := lit "A good call." |}.

Definition unauthorized : exn := APIError (Some 401) (lit "Unauthorized").

(** Client 1 after it entered a key, and clients 1 and 2 after each
    entered its own. *)
Definition logged_in_world : world :=
  act initial_world (1%nat, SetApiKey (Some (lit "sk-test")) (lit "id-1")).

Definition two_clients : world :=
  run initial_world
    [(1%nat, SetApiKey (Some (lit "sk-one")) (lit "id-1"));
     (2%nat, SetApiKey (Some (lit "sk-two")) (lit "id-2"))].

Definition accented_rubric {FM : FloatModel} : json :=
  JObj [(lit "tone", JStr (lit "Was the agent " ++ [233]))].

(** An environment for uploads: names [secure_filename] keeps, every
    path writable, and files read as text when their bytes are ASCII. *)
Definition keep_name : str -> str := fun name => name.

Definition any_path : str -> bool := fun _ => true.

Definition ascii_text : list N -> option str :=
  fun bytes => if forallb is_ascii bytes then Some bytes else None.

Definition example_upload (bytes : list N) : upload :=
  {| upload_name := lit "call.txt"; upload_bytes := bytes |}.

Definition old_files : store (list N) :=
  [(lit "uploads/call.txt", lit "kept from an earlier run")].

Ltac skipped Hk :=
  first [ apply (Hk 3%nat); lia | apply (Hk 4%nat); lia
        | apply (Hk 5%nat); lia | apply (Hk 8%nat); lia
        | apply (Hk 9%nat); lia ].

(** * Properties of the [json] model *)

(** ** The scanner always has budget left *)

Lemma skip_ws_length (s : str) : (length (skip_ws s) <= length s)%nat.
Proof.
  induction s as [|c s IH]; simpl; [lia|].
  destruct (is_ws c); simpl; lia.
Qed.

Lemma consr_some c x k r :
  consr c x = Some (k, r) -> exists k', x = Some (k', r) /\ k = c :: k'.
Proof.
  destruct x as [[k' r']|]; simpl; [|discriminate].
  intros H; inversion H; subst. eauto.
Qed.

Lemma scanstring_length_aux (n : nat) :
  forall s k r, (length s <= n)%nat -> scanstring s = Some (k, r) ->
                (length r < length s)%nat.
Proof.
  induction n as [|n IH]; intros s k r Hn H.
  - destruct s; [discriminate | simpl in Hn; lia].
  - assert (IH' : forall c t k' r', (length t <= n)%nat ->
              consr c (scanstring t) = Some (k', r') ->
              (length r' < length t)%nat).
    { intros c t k' r' Ht Hc. apply consr_some in Hc.
      destruct Hc as (k1 & Hs & _). eapply IH; eauto. }
    destruct s as [|c s1]; [discriminate|].
    cbn [scanstring] in H. simpl in Hn.
    destruct (c =? dquote).
    { inversion H; subst; simpl; lia. }
    destruct (c =? backslash).
    + destruct s1 as [|e s2]; [discriminate|]. simpl in Hn.
      destruct (e =? ch "u").
      * destruct s2 as [|h1 [|h2 [|h3 [|h4 s3]]]]; try discriminate.
        simpl in Hn.
        destruct (hex4 h1 h2 h3 h4) as [u|]; [|discriminate].
        assert (Hs3 : forall k' r', consr u (scanstring s3) = Some (k', r') ->
                  (length r' < length (c :: e :: h1 :: h2 :: h3 :: h4 :: s3))%nat).
        { intros k' r' Hc. apply IH' in Hc; simpl; lia. }
        destruct (is_high_surrogate u); [|eauto].
        destruct s3 as [|b [|u' [|l1 [|l2 [|l3 [|l4 s4]]]]]]; eauto.
        destruct ((b =? backslash) && (u' =? ch "u")); eauto.
        destruct (hex4 l1 l2 l3 l4) as [u2|]; [|discriminate].
        destruct (is_low_surrogate u2); eauto.
        apply IH' in H; simpl in *; lia.
      * destruct (unescape e); [|discriminate].
        apply IH' in H; simpl; lia.
    + destruct (c <? 32); [discriminate|].
      apply IH' in H; simpl; lia.
Qed.

Lemma scanstring_length s k r :
  scanstring s = Some (k, r) -> (length r < length s)%nat.
Proof. apply (scanstring_length_aux (length s)); lia. Qed.

Lemma span_digits_length s :
  (length (snd (span_digits s)) <= length s)%nat.
Proof.
  induction s as [|c s IH]; simpl; [lia|].
  destruct (is_digit c); simpl; [|lia].
  destruct (span_digits s); simpl in *; lia.
Qed.

Lemma span_digits_parts s :
  fst (span_digits s) ++ snd (span_digits s) = s.
Proof.
  induction s as [|c s IH]; simpl; [reflexivity|].
  destruct (is_digit c); simpl; [|reflexivity].
  destruct (span_digits s); simpl in *; congruence.
Qed.

Lemma skipn_length_lt {A} (n : nat) (s : list A) :
  (0 < n)%nat -> s <> [] -> (length (skipn n s) < length s)%nat.
Proof.
  intros Hn Hs. rewrite length_skipn.
  destruct s; [congruence | cbn [length]; lia].
Qed.

Section LoadsFacts.
Context {FM : FloatModel}.

Lemma match_integer_length s neg ds r :
  match_integer s = Some (neg, ds, r) -> (length r < length s)%nat.
Proof.
  unfold match_integer.
  assert (Hd : forall t neg' ds' r',
    match t with
    | d :: r0 =>
        if d =? ch "0" then Some (neg', [d], r0)
        else if is_digit d then
          let (ds0, r1) := span_digits r0 in Some (neg', d :: ds0, r1)
        else None
    | [] => None
    end = Some (neg, ds', r') -> (length r' < length t)%nat).
  { intros [|d r0] neg' ds' r'; [discriminate|].
    destruct (d =? ch "0").
    - intros H; inversion H; subst; simpl; lia.
    - destruct (is_digit d); [|discriminate].
      pose proof (span_digits_length r0) as Hl.
      destruct (span_digits r0) as [ds0 r1]. simpl in Hl.
      intros H; inversion H; subst; simpl; lia. }
  destruct s as [|c r0].
  - discriminate.
  - destruct (c =? ch "-"); intros H.
    + apply Hd in H. simpl; lia.
    + apply (Hd (c :: r0)) in H. exact H.
Qed.

Lemma match_frac_length s : (length (snd (match_frac s)) <= length s)%nat.
Proof.
  unfold match_frac. destruct s as [|c r]; [simpl; lia|].
  destruct (c =? ch "."); [|simpl; lia].
  pose proof (span_digits_length r) as Hl.
  destruct (span_digits r) as [[|d ds] r']; simpl in *; lia.
Qed.

Lemma match_exp_length s : (length (snd (match_exp s)) <= length s)%nat.
Proof.
  unfold match_exp. destruct s as [|c r]; [simpl; lia|].
  destruct ((c =? ch "e") || (c =? ch "E")); [|simpl; lia].
  destruct r as [|g r0].
  - simpl. lia.
  - destruct ((g =? ch "-") || (g =? ch "+")).
    + pose proof (span_digits_length r0) as Hl.
      destruct (span_digits r0) as [[|d ds] r']; simpl in *; lia.
    + pose proof (span_digits_length (g :: r0)) as Hl.
      destruct (span_digits (g :: r0)) as [[|d ds] r']; simpl in *; lia.
Qed.

Lemma match_number_length s v r :
  match_number s = Some (v, r) -> (length r < length s)%nat.
Proof.
  unfold match_number.
  destruct (match_integer s) as [[[neg ds] r0]|] eqn:Hi; [|discriminate].
  apply match_integer_length in Hi.
  pose proof (match_frac_length r0) as Hf.
  destruct (match_frac r0) as [frac r1]. simpl in Hf.
  pose proof (match_exp_length r1) as He.
  destruct (match_exp r1) as [exp r2]. simpl in He.
  destruct frac, exp; intros H; inversion H; subst; lia.
Qed.

(** Every successful scan consumes at least one character. *)
Lemma scan_consumes (fuel : nat) :
  (forall s v r, scan_once fuel s = Ok v r -> (length r < length s)%nat) /\
  (forall s vs r, parse_items fuel s = Ok vs r -> (length r < length s)%nat) /\
  (forall s kvs r, parse_members fuel s = Ok kvs r ->
                   (length r < length s)%nat).
Proof.
  induction fuel as [|fuel (IHv & IHi & IHm)].
  { repeat split; intros; discriminate. }
  repeat split.
  - intros s v r. cbn [scan_once].
    destruct s as [|c s1]; [discriminate|].
    destruct (c =? dquote).
    { destruct (scanstring s1) as [[k r']|] eqn:Hs; [|discriminate].
      apply scanstring_length in Hs.
      intros H; inversion H; subst; simpl; lia. }
    destruct (c =? ch "{").
    { pose proof (skip_ws_length s1) as Hw.
      destruct (skip_ws s1) as [|c2 s2]; [discriminate|].
      destruct (c2 =? ch "}").
      { intros H; inversion H; subst; simpl in *; lia. }
      destruct (c2 =? dquote); [|discriminate].
      destruct (parse_members fuel s2) as [pairs r'| |] eqn:Hm;
        try discriminate.
      apply IHm in Hm. intros H; inversion H; subst; simpl in *; lia. }
    destruct (c =? ch "[").
    { pose proof (skip_ws_length s1) as Hw.
      destruct (skip_ws s1) as [|c2 s2]; [discriminate|].
      destruct (c2 =? ch "]").
      { intros H; inversion H; subst; simpl in *; lia. }
      destruct (parse_items fuel (c2 :: s2)) as [xs r'| |] eqn:Hi;
        try discriminate.
      apply IHi in Hi. intros H; inversion H; subst; simpl in *; lia. }
    assert (Hk : forall n, (0 < n)%nat ->
              (length (skipn n (c :: s1)) < length (c :: s1))%nat).
    { intros n Hn. apply skipn_length_lt; [lia | discriminate]. }
    destruct ((c =? ch "n") && starts_with (lit "null") (c :: s1)).
    { intros [= <- <-]. skipped Hk. }
    destruct ((c =? ch "t") && starts_with (lit "true") (c :: s1)).
    { intros [= <- <-]. skipped Hk. }
    destruct ((c =? ch "f") && starts_with (lit "false") (c :: s1)).
    { intros [= <- <-]. skipped Hk. }
    destruct (match_number (c :: s1)) as [[v' r']|] eqn:Hn.
    { apply match_number_length in Hn.
      intros H; inversion H; subst; assumption. }
    destruct ((c =? ch "N") && starts_with (lit "NaN") (c :: s1)).
    { intros [= <- <-]. skipped Hk. }
    destruct ((c =? ch "I") && starts_with (lit "Infinity") (c :: s1)).
    { intros [= <- <-]. skipped Hk. }
    destruct ((c =? ch "-") && starts_with (lit "-Infinity") (c :: s1)).
    { intros [= <- <-]. skipped Hk. }
    discriminate.
  - intros s vs r. cbn [parse_items].
    destruct (scan_once fuel s) as [v r0| |] eqn:Hv; try discriminate.
    apply IHv in Hv.
    pose proof (skip_ws_length r0) as Hw.
    destruct (skip_ws r0) as [|c r1]; [discriminate|].
    destruct (c =? ch "]").
    { intros H; inversion H; subst; simpl in *; lia. }
    destruct (c =? ch ","); [|discriminate].
    pose proof (skip_ws_length r1) as Hw1.
    destruct (parse_items fuel (skip_ws r1)) as [vs' r2| |] eqn:Hi;
      try discriminate.
    apply IHi in Hi. intros H; inversion H; subst; simpl in *; lia.
  - intros s kvs r. cbn [parse_members].
    destruct (scanstring s) as [[key r0]|] eqn:Hs; [|discriminate].
    apply scanstring_length in Hs.
    pose proof (skip_ws_length r0) as Hw.
    destruct (skip_ws r0) as [|c r1]; [discriminate|].
    destruct (c =? ch ":"); [|discriminate].
    pose proof (skip_ws_length r1) as Hw1.
    destruct (scan_once fuel (skip_ws r1)) as [v r2| |] eqn:Hv;
      try discriminate.
    apply IHv in Hv.
    pose proof (skip_ws_length r2) as Hw2.
    destruct (skip_ws r2) as [|c2 r3]; [discriminate|].
    destruct (c2 =? ch "}").
    { intros H; inversion H; subst; simpl in *; lia. }
    destruct (c2 =? ch ","); [|discriminate].
    pose proof (skip_ws_length r3) as Hw3.
    destruct (skip_ws r3) as [|c3 r4]; [discriminate|].
    destruct (c3 =? dquote); [|discriminate].
    destruct (parse_members fuel r4) as [kvs' r5| |] eqn:Hm;
      try discriminate.
    apply IHm in Hm. intros H; inversion H; subst; simpl in *; lia.
Qed.

(** With the budget [json_loads] grants, the scanner never stops for
    lack of it: a [None] of [json_loads] is a [JSONDecodeError]. *)
Lemma scan_budget (fuel : nat) :
  (forall s, (2 * length s < fuel)%nat -> scan_once fuel s <> OutOfFuel) /\
  (forall s, (2 * length s + 1 < fuel)%nat ->
             parse_items fuel s <> OutOfFuel) /\
  (forall s, (2 * length s + 1 < fuel)%nat ->
             parse_members fuel s <> OutOfFuel).
Proof.
  induction fuel as [|fuel (IHv & IHi & IHm)].
  { repeat split; intros; lia. }
  repeat split.
  - intros s Hf. cbn [scan_once].
    destruct s as [|c s1]; [discriminate|]. simpl in Hf.
    destruct (c =? dquote).
    { destruct (scanstring s1) as [[k r']|]; discriminate. }
    destruct (c =? ch "{").
    { pose proof (skip_ws_length s1) as Hw.
      destruct (skip_ws s1) as [|c2 s2]; [discriminate|].
      destruct (c2 =? ch "}"); [discriminate|].
      destruct (c2 =? dquote); [|discriminate].
      destruct (parse_members fuel s2) eqn:Hm; try discriminate.
      exfalso. revert Hm. apply IHm. simpl in Hw. lia. }
    destruct (c =? ch "[").
    { pose proof (skip_ws_length s1) as Hw.
      destruct (skip_ws s1) as [|c2 s2]; [discriminate|].
      destruct (c2 =? ch "]"); [discriminate|].
      destruct (parse_items fuel (c2 :: s2)) eqn:Hi; try discriminate.
      exfalso. revert Hi. apply IHi. simpl in *. lia. }
    destruct ((c =? ch "n") && starts_with (lit "null") (c :: s1));
      [discriminate|].
    destruct ((c =? ch "t") && starts_with (lit "true") (c :: s1));
      [discriminate|].
    destruct ((c =? ch "f") && starts_with (lit "false") (c :: s1));
      [discriminate|].
    destruct (match_number (c :: s1)) as [[v' r']|]; [discriminate|].
    destruct ((c =? ch "N") && starts_with (lit "NaN") (c :: s1));
      [discriminate|].
    destruct ((c =? ch "I") && starts_with (lit "Infinity") (c :: s1));
      [discriminate|].
    destruct ((c =? ch "-") && starts_with (lit "-Infinity") (c :: s1));
      discriminate.
  - intros s Hf. cbn [parse_items].
    destruct (scan_once fuel s) as [v r0| |] eqn:Hv; try discriminate.
    2:{ exfalso. revert Hv. apply IHv. lia. }
    apply (proj1 (scan_consumes fuel)) in Hv.
    pose proof (skip_ws_length r0) as Hw.
    destruct (skip_ws r0) as [|c r1]; [discriminate|].
    destruct (c =? ch "]"); [discriminate|].
    destruct (c =? ch ","); [|discriminate].
    pose proof (skip_ws_length r1) as Hw1.
    destruct (parse_items fuel (skip_ws r1)) eqn:Hi; try discriminate.
    exfalso. revert Hi. apply IHi. simpl in *. lia.
  - intros s Hf. cbn [parse_members].
    destruct (scanstring s) as [[key r0]|] eqn:Hs; [|discriminate].
    apply scanstring_length in Hs.
    pose proof (skip_ws_length r0) as Hw.
    destruct (skip_ws r0) as [|c r1]; [discriminate|].
    destruct (c =? ch ":"); [|discriminate].
    pose proof (skip_ws_length r1) as Hw1.
    destruct (scan_once fuel (skip_ws r1)) as [v r2| |] eqn:Hv;
      try discriminate.
    2:{ exfalso. revert Hv. apply IHv. simpl in *. lia. }
    apply (proj1 (scan_consumes fuel)) in Hv.
    pose proof (skip_ws_length r2) as Hw2.
    destruct (skip_ws r2) as [|c2 r3]; [discriminate|].
    destruct (c2 =? ch "}"); [discriminate|].
    destruct (c2 =? ch ","); [|discriminate].
    pose proof (skip_ws_length r3) as Hw3.
    destruct (skip_ws r3) as [|c3 r4]; [discriminate|].
    destruct (c3 =? dquote); [|discriminate].
    destruct (parse_members fuel r4) eqn:Hm; try discriminate.
    exfalso. revert Hm. apply IHm. simpl in *. lia.
Qed.

Lemma json_loads_budget (s : str) :
  scan_once (fuel_for s) (skip_ws s) <> OutOfFuel.
Proof.
  apply (proj1 (scan_budget (fuel_for s))).
  pose proof (skip_ws_length s). unfold fuel_for. lia.
Qed.

End LoadsFacts.

(** ** Strings survive [dumps] then [loads] *)

Lemma hexval_hex_digit (d : N) : d < 16 -> hexval (hex_digit d) = Some d.
Proof.
  intros Hd.
  assert (H : existsb (N.eqb d)
                [0;1;2;3;4;5;6;7;8;9;10;11;12;13;14;15] = true).
  { cbn [existsb]. repeat rewrite orb_true_iff. repeat rewrite N.eqb_eq. lia. }
  cbn [existsb] in H. repeat rewrite orb_true_iff in H.
  repeat rewrite N.eqb_eq in H.
  repeat (destruct H as [H|H]; [subst d; reflexivity|]).
  discriminate.
Qed.

Lemma hex4_u_escape (n : N) :
  n < 65536 ->
  hex4 (hex_digit (n / 4096)) (hex_digit ((n / 256) mod 16))
       (hex_digit ((n / 16) mod 16)) (hex_digit (n mod 16)) = Some n.
Proof.
  intros Hn. unfold hex4.
  assert (H1 : n / 4096 < 16) by (apply N.Div0.div_lt_upper_bound; lia).
  assert (H2 : (n / 256) mod 16 < 16) by (apply N.mod_lt; lia).
  assert (H3 : (n / 16) mod 16 < 16) by (apply N.mod_lt; lia).
  assert (H4 : n mod 16 < 16) by (apply N.mod_lt; lia).
  rewrite !hexval_hex_digit by assumption.
  f_equal.
  pose proof (N.div_mod n 16 ltac:(lia)) as E1.
  pose proof (N.div_mod (n / 16) 16 ltac:(lia)) as E2.
  pose proof (N.div_mod (n / 256) 16 ltac:(lia)) as E3.
  assert (E4 : n / 16 / 16 = n / 256)
    by (rewrite N.Div0.div_div; reflexivity).
  assert (E5 : n / 256 / 16 = n / 4096)
    by (rewrite N.Div0.div_div; reflexivity).
  assert (E6 : (n / 4096) mod 16 = n / 4096) by (apply N.mod_small; lia).
  lia.
Qed.

Lemma land_shiftl_small (a b k : N) :
  b < 2 ^ k -> N.land (N.shiftl a k) b = 0.
Proof.
  intros Hb. apply N.bits_inj_0. intros i. rewrite N.land_spec.
  destruct (N.lt_ge_cases i k) as [Hi|Hi].
  - rewrite N.shiftl_spec_low by assumption. reflexivity.
  - rewrite <- (N.mod_small b (2 ^ k)) by assumption.
    rewrite N.mod_pow2_bits_high by assumption. apply andb_false_r.
Qed.

Lemma lor_shiftl_small (a b k : N) :
  b < 2 ^ k -> N.lor (N.shiftl a k) b = a * 2 ^ k + b.
Proof.
  intros Hb. pose proof (land_shiftl_small a b k Hb) as H0.
  rewrite <- N.lxor_lor by assumption.
  rewrite <- N.add_nocarry_lxor by assumption.
  rewrite N.shiftl_mul_pow2. reflexivity.
Qed.

(** The two halves [json.dumps] writes for a code point beyond the
    basic plane, and what [json.loads] makes of them. *)
Lemma surrogate_halves (c : N) :
  65536 <= c -> c < 1114112 ->
  let n := c - 65536 in
  let hi := N.lor 55296 (N.land (N.shiftr n 10) 1023) in
  let lo := N.lor 56320 (N.land n 1023) in
  hi < 65536 /\ lo < 65536 /\
  is_high_surrogate hi = true /\ is_low_surrogate lo = true /\
  join_surrogates hi lo = c.
Proof.
  intros Hlo Hhi n hi lo.
  assert (Hn : n < 1048576) by (unfold n; lia).
  assert (Ea : N.land (N.shiftr n 10) 1023 = n / 1024).
  { change 1023 with (N.ones 10). rewrite N.land_ones, N.shiftr_div_pow2.
    change (2 ^ 10) with 1024. apply N.mod_small.
    apply N.Div0.div_lt_upper_bound; lia. }
  assert (Eb : N.land n 1023 = n mod 1024).
  { change 1023 with (N.ones 10). rewrite N.land_ones. reflexivity. }
  assert (Ha : n / 1024 < 1024) by (apply N.Div0.div_lt_upper_bound; lia).
  assert (Hb : n mod 1024 < 1024) by (apply N.mod_lt; lia).
  assert (Ehi : hi = 55296 + n / 1024).
  { unfold hi. rewrite Ea. change 55296 with (N.shiftl 54 10).
    rewrite lor_shiftl_small by (change (2 ^ 10) with 1024; assumption).
    reflexivity. }
  assert (Elo : lo = 56320 + n mod 1024).
  { unfold lo. rewrite Eb. change 56320 with (N.shiftl 55 10).
    rewrite lor_shiftl_small by (change (2 ^ 10) with 1024; assumption).
    reflexivity. }
  unfold is_high_surrogate, is_low_surrogate, join_surrogates.
  rewrite Ehi, Elo.
  replace (55296 + n / 1024 - 55296) with (n / 1024) by lia.
  replace (56320 + n mod 1024 - 56320) with (n mod 1024) by lia.
  rewrite lor_shiftl_small by (change (2 ^ 10) with 1024; assumption).
  change (2 ^ 10) with 1024.
  pose proof (N.div_mod n 1024 ltac:(lia)) as E.
  repeat split; try lia.
  - apply andb_true_iff; split; apply N.leb_le; lia.
  - apply andb_true_iff; split; apply N.leb_le; lia.
Qed.

Lemma scanstring_plain (c : char) (t : str) :
  c <> dquote -> c <> backslash -> 32 <= c ->
  scanstring (c :: t) = consr c (scanstring t).
Proof.
  intros H1 H2 H3. cbn [scanstring].
  apply N.eqb_neq in H1, H2. rewrite H1, H2.
  apply N.ltb_ge in H3. rewrite H3. reflexivity.
Qed.

Lemma scanstring_simple_escape (e c : char) (t : str) :
  e <> ch "u" -> unescape e = Some c ->
  scanstring (backslash :: e :: t) = consr c (scanstring t).
Proof.
  intros H1 H2. cbn [scanstring].
  change (backslash =? dquote) with false.
  change (backslash =? backslash) with true. cbv iota.
  apply N.eqb_neq in H1. rewrite H1, H2. reflexivity.
Qed.

Lemma scanstring_u_escape (h1 h2 h3 h4 : char) (u : N) (t : str) :
  hex4 h1 h2 h3 h4 = Some u -> is_high_surrogate u = false ->
  scanstring (backslash :: ch "u" :: h1 :: h2 :: h3 :: h4 :: t) =
  consr u (scanstring t).
Proof.
  intros H1 H2. cbn [scanstring].
  change (backslash =? dquote) with false.
  change (backslash =? backslash) with true.
  change (ch "u" =? ch "u") with true. cbv iota.
  rewrite H1, H2. reflexivity.
Qed.

Lemma scanstring_u_pair (h1 h2 h3 h4 l1 l2 l3 l4 : char) (hi lo : N)
    (t : str) :
  hex4 h1 h2 h3 h4 = Some hi -> is_high_surrogate hi = true ->
  hex4 l1 l2 l3 l4 = Some lo -> is_low_surrogate lo = true ->
  scanstring (backslash :: ch "u" :: h1 :: h2 :: h3 :: h4 ::
              backslash :: ch "u" :: l1 :: l2 :: l3 :: l4 :: t) =
  consr (join_surrogates hi lo) (scanstring t).
Proof.
  intros H1 H2 H3 H4.
  remember (backslash :: ch "u" :: l1 :: l2 :: l3 :: l4 :: t) as s3 eqn:E.
  cbn [scanstring].
  change (backslash =? dquote) with false.
  change (backslash =? backslash) with true.
  change (ch "u" =? ch "u") with true. cbv iota.
  rewrite H1, H2. subst s3. cbv iota.
  change (backslash =? backslash) with true.
  change (ch "u" =? ch "u") with true.
  cbn [andb]. rewrite H3, H4. reflexivity.
Qed.

(** One character of a string, as [json.dumps] writes it, is read back
    as that character. *)
Lemma scanstring_escape_char (c : char) (t : str) :
  is_scalar c = true ->
  scanstring (escape_char c ++ t) = consr c (scanstring t).
Proof.
  intros Hc. unfold escape_char.
  destruct (N.eqb_spec c backslash) as [->|N1].
  { apply scanstring_simple_escape; [discriminate | reflexivity]. }
  destruct (N.eqb_spec c dquote) as [->|N2].
  { apply scanstring_simple_escape; [discriminate | reflexivity]. }
  destruct (N.eqb_spec c 8) as [->|N3].
  { apply scanstring_simple_escape; [discriminate | reflexivity]. }
  destruct (N.eqb_spec c 12) as [->|N4].
  { apply scanstring_simple_escape; [discriminate | reflexivity]. }
  destruct (N.eqb_spec c 10) as [->|N5].
  { apply scanstring_simple_escape; [discriminate | reflexivity]. }
  destruct (N.eqb_spec c 13) as [->|N6].
  { apply scanstring_simple_escape; [discriminate | reflexivity]. }
  destruct (N.eqb_spec c 9) as [->|N7].
  { apply scanstring_simple_escape; [discriminate | reflexivity]. }
  destruct ((32 <=? c) && (c <=? 126)) eqn:Hp.
  { apply andb_true_iff in Hp. destruct Hp as [Hp _].
    apply N.leb_le in Hp. apply scanstring_plain; assumption. }
  unfold is_scalar in Hc.
  destruct (N.ltb_spec c 65536) as [Hs|Hs].
  - unfold u_escape. cbn [app].
    apply scanstring_u_escape.
    + apply hex4_u_escape. assumption.
    + unfold is_high_surrogate.
      apply orb_true_iff in Hc. destruct Hc as [Hc|Hc].
      * apply N.ltb_lt in Hc. apply andb_false_iff. left.
        apply N.leb_gt. lia.
      * apply andb_true_iff in Hc. destruct Hc as [Hc _].
        apply N.leb_le in Hc. apply andb_false_iff. right.
        apply N.leb_gt. lia.
  - assert (Hu : c < 1114112).
    { apply orb_true_iff in Hc. destruct Hc as [Hc|Hc].
      - apply N.ltb_lt in Hc. lia.
      - apply andb_true_iff in Hc. destruct Hc as [_ Hc].
        apply N.ltb_lt in Hc. assumption. }
    destruct (surrogate_halves c Hs Hu) as (B1 & B2 & B3 & B4 & B5).
    cbv zeta in *.
    set (hi := N.lor 55296 _) in *. set (lo := N.lor 56320 _) in *.
    rewrite <- B5. unfold u_escape. cbn [app].
    apply scanstring_u_pair; try assumption;
      apply hex4_u_escape; assumption.
Qed.

Lemma scanstring_escaped (s rest : str) :
  forallb is_scalar s = true ->
  scanstring (flat_map escape_char s ++ dquote :: rest) = Some (s, rest).
Proof.
  induction s as [|c s IH]; intros Hs.
  - reflexivity.
  - cbn [forallb] in Hs. apply andb_true_iff in Hs. destruct Hs as [Hc Hs].
    cbn [flat_map]. rewrite <- app_assoc.
    rewrite scanstring_escape_char by assumption.
    rewrite IH by assumption. reflexivity.
Qed.

(** ** Integers survive [dumps] then [loads] *)

Lemma digits_value_fold (ds : str) :
  digits_value ds = fold_left digit_step ds 0.
Proof. reflexivity. Qed.

Lemma fold_uint_chars_acc (d : Decimal.uint) (acc : positive) :
  fold_left digit_step (uint_chars d) (Npos acc) =
  Npos (Pos.of_uint_acc d acc).
Proof.
  revert acc.
  induction d as [|d IH|d IH|d IH|d IH|d IH|d IH|d IH|d IH|d IH|d IH];
    intros acc; cbn [uint_chars fold_left Pos.of_uint_acc];
    [reflexivity|..];
    rewrite <- IH; f_equal; unfold digit_step; lia.
Qed.

Lemma digits_value_uint_chars (d : Decimal.uint) :
  digits_value (uint_chars d) = Pos.of_uint d.
Proof.
  rewrite digits_value_fold.
  induction d as [|d IH|d IH|d IH|d IH|d IH|d IH|d IH|d IH|d IH|d IH];
    cbn [uint_chars fold_left Pos.of_uint];
    [reflexivity | exact IH | ..];
    rewrite <- fold_uint_chars_acc; f_equal.
Qed.

Lemma uint_chars_digits (d : Decimal.uint) : forallb is_digit (uint_chars d) = true.
Proof.
  induction d; cbn [uint_chars forallb]; try rewrite IHd; reflexivity.
Qed.

Lemma span_digits_all (ds rest : str) :
  forallb is_digit ds = true -> number_ends rest = true ->
  span_digits (ds ++ rest) = (ds, rest).
Proof.
  intros Hd Hr. induction ds as [|c ds IH].
  - destruct rest as [|c r]; [reflexivity|].
    cbn [app span_digits]. unfold number_ends in Hr.
    destruct (is_digit c); [discriminate | reflexivity].
  - cbn [forallb] in Hd. apply andb_true_iff in Hd. destruct Hd as [Hc Hd].
    cbn [app span_digits]. rewrite Hc, IH by assumption. reflexivity.
Qed.

(** The decimal numeral of a positive number starts with a digit from
    [1] to [9]. *)
Lemma pos_numeral_head (p : positive) :
  exists c cs, uint_chars (Pos.to_uint p) = c :: cs /\
               is_digit c = true /\ c <> ch "0".
Proof.
  pose proof (DecimalPos.Unsigned.to_of (Pos.to_uint p)) as Hn.
  rewrite DecimalPos.Unsigned.of_to in Hn. cbn [N.to_uint] in Hn.
  pose proof (DecimalPos.Unsigned.to_uint_nonzero p) as Hz.
  pose proof (DecimalPos.Unsigned.to_uint_nonnil p) as Hnil.
  destruct (Pos.to_uint p) as [|d|d|d|d|d|d|d|d|d|d] eqn:E;
    try (cbn [uint_chars]; eexists _, _;
         split; [reflexivity | split; [reflexivity | discriminate]]).
  - congruence.
  - exfalso. rewrite DecimalFacts.unorm_D0 in Hn.
    destruct d as [|d'|d'|d'|d'|d'|d'|d'|d'|d'|d'] eqn:Ed;
      try (assert (Hd : d <> Decimal.Nil) by (subst d; discriminate);
           pose proof (DecimalFacts.nb_digits_unorm d Hd) as Hle;
           subst d; rewrite <- Hn in Hle;
           cbn [Decimal.nb_digits] in Hle; lia).
    apply Hz. reflexivity.
Qed.

Section DumpsLoads.
Context {FM : FloatModel}.

Lemma match_frac_ends (rest : str) :
  number_ends rest = true -> match_frac rest = ([], rest).
Proof.
  destruct rest as [|c r]; [reflexivity|]. unfold number_ends, match_frac.
  destruct (c =? ch "."); [|reflexivity].
  rewrite !orb_true_r. discriminate.
Qed.

Lemma match_exp_ends (rest : str) :
  number_ends rest = true -> match_exp rest = ([], rest).
Proof.
  destruct rest as [|c r]; [reflexivity|]. unfold number_ends, match_exp.
  destruct (c =? ch "e"); [rewrite !orb_true_r; discriminate|].
  destruct (c =? ch "E"); [rewrite !orb_true_r; discriminate|].
  reflexivity.
Qed.

Lemma is_digit_not (c d : char) :
  is_digit c = true -> is_digit d = false -> (c =? d) = false.
Proof.
  intros Hc Hd. apply N.eqb_neq. intros ->. congruence.
Qed.

Lemma match_integer_numeral (neg : bool) (ds rest : str) :
  is_numeral ds -> number_ends rest = true ->
  match_integer ((if neg then [ch "-"] else []) ++ ds ++ rest) =
  Some (neg, ds, rest).
Proof.
  intros Hds Hr.
  assert (Hbody : forall n : bool,
    match ds ++ rest with
    | d :: r =>
        if d =? ch "0" then Some (n, [d], r)
        else if is_digit d then
          let (ds0, r') := span_digits r in Some (n, d :: ds0, r')
        else None
    | [] => None
    end = Some (n, ds, rest)).
  { intros n. destruct Hds as [->|(c & cs & -> & Hc & Hz & Hcs)].
    - reflexivity.
    - cbn [app]. apply N.eqb_neq in Hz. rewrite Hz, Hc.
      rewrite span_digits_all by assumption. reflexivity. }
  unfold match_integer. destruct neg.
  - cbn [app]. change (ch "-" =? ch "-") with true. cbv iota. apply Hbody.
  - cbn [app].
    assert (Hh : exists c t, ds ++ rest = c :: t /\ is_digit c = true).
    { destruct Hds as [->|(c & cs & -> & Hc & _)]; cbn [app]; eauto. }
    destruct Hh as (c & t & E & Hc). rewrite E in *.
    rewrite (is_digit_not c (ch "-") Hc eq_refl). apply Hbody.
Qed.

Lemma match_number_numeral (neg : bool) (ds rest : str) :
  is_numeral ds -> number_ends rest = true ->
  match_number ((if neg then [ch "-"] else []) ++ ds ++ rest) =
  Some (JInt (if neg then Z.opp (Z.of_N (digits_value ds))
              else Z.of_N (digits_value ds)), rest).
Proof.
  intros Hds Hr. unfold match_number.
  rewrite match_integer_numeral by assumption.
  rewrite match_frac_ends, match_exp_ends by assumption. reflexivity.
Qed.

Lemma pos_numeral (p : positive) : is_numeral (uint_chars (Pos.to_uint p)).
Proof.
  right. destruct (pos_numeral_head p) as (c & cs & E & Hc & Hz).
  exists c, cs. repeat split; try assumption.
  pose proof (uint_chars_digits (Pos.to_uint p)) as Hd.
  rewrite E in Hd. cbn [forallb] in Hd.
  apply andb_true_iff in Hd. apply Hd.
Qed.

Lemma pos_numeral_value (p : positive) :
  digits_value (uint_chars (Pos.to_uint p)) = Npos p.
Proof.
  rewrite digits_value_uint_chars. apply DecimalPos.Unsigned.of_to.
Qed.

Lemma match_number_int_repr (z : Z) (rest : str) :
  number_ends rest = true ->
  match_number (int_repr z ++ rest) = Some (JInt z, rest).
Proof.
  intros Hr. destruct z as [|p|p].
  - apply (match_number_numeral false [ch "0"] rest); [left; reflexivity|].
    assumption.
  - pose proof (match_number_numeral false _ rest (pos_numeral p) Hr) as H.
    rewrite pos_numeral_value in H. exact H.
  - pose proof (match_number_numeral true _ rest (pos_numeral p) Hr) as H.
    rewrite pos_numeral_value in H. exact H.
Qed.

(** A text that starts with a digit or a minus sign is scanned as a
    number. *)
Lemma scan_once_number (fuel : nat) (c : char) (t : str) (v : json)
    (r : str) :
  is_digit c = true \/ c = ch "-" ->
  match_number (c :: t) = Some (v, r) ->
  scan_once (S fuel) (c :: t) = Ok v r.
Proof.
  intros Hc Hn. cbn [scan_once].
  assert (Hne : forall d, is_digit d = false -> d <> ch "-" ->
                          (c =? d) = false).
  { intros d Hd Hm. destruct Hc as [Hc| ->].
    - apply is_digit_not; assumption.
    - apply N.eqb_neq. congruence. }
  rewrite (Hne dquote), (Hne (ch "{")), (Hne (ch "[")), (Hne (ch "n")),
    (Hne (ch "t")), (Hne (ch "f")) by (reflexivity || discriminate).
  cbn [andb]. rewrite Hn. reflexivity.
Qed.

Lemma int_repr_head (z : Z) :
  exists c t, int_repr z = c :: t /\ (is_digit c = true \/ c = ch "-").
Proof.
  destruct z as [|p|p].
  - exists (ch "0"), []. split; [reflexivity | left; reflexivity].
  - destruct (pos_numeral_head p) as (c & cs & E & Hc & _).
    exists c, cs. split; [exact E | left; exact Hc].
  - eexists _, _. split; [reflexivity | right; reflexivity].
Qed.

Lemma scan_once_int (fuel : nat) (z : Z) (rest : str) :
  number_ends rest = true ->
  scan_once (S fuel) (int_repr z ++ rest) = Ok (JInt z) rest.
Proof.
  intros Hr. pose proof (match_number_int_repr z rest Hr) as Hn.
  destruct (int_repr_head z) as (c & t & E & Hc).
  rewrite E in *. cbn [app] in *.
  apply scan_once_number; assumption.
Qed.

End DumpsLoads.

(** ** Values survive [dumps] then [loads] *)

Lemma str_eqb_eq (a b : str) : str_eqb a b = true <-> a = b.
Proof.
  unfold str_eqb. destruct (list_eq_dec N.eq_dec a b); split; congruence.
Qed.

Lemma str_eqb_refl (a : str) : str_eqb a a = true.
Proof. apply str_eqb_eq. reflexivity. Qed.

Lemma str_eqb_neq (a b : str) : str_eqb a b = false <-> a <> b.
Proof.
  unfold str_eqb. destruct (list_eq_dec N.eq_dec a b); split; congruence.
Qed.

Lemma delimited_number_ends (rest : str) :
  delimited rest = true -> number_ends rest = true.
Proof.
  destruct rest as [|c r]; [reflexivity|]. unfold delimited, number_ends.
  unfold is_ws. intros H. repeat rewrite orb_true_iff in H.
  repeat rewrite N.eqb_eq in H.
  repeat (destruct H as [H|H]); subst c; reflexivity.
Qed.

Lemma value_start_cases (c : char) :
  value_start c = true ->
  is_ws c = false /\ (c =? ch "]") = false /\ (c =? ch "}") = false.
Proof.
  unfold value_start. intros H. repeat rewrite orb_true_iff in H.
  repeat rewrite N.eqb_eq in H.
  assert (Hd : is_digit c = true -> is_ws c = false /\
                 (c =? ch "]") = false /\ (c =? ch "}") = false).
  { intros Hc. repeat split.
    - unfold is_ws. rewrite !(is_digit_not c) by (assumption || reflexivity).
      reflexivity.
    - apply is_digit_not; [assumption | reflexivity].
    - apply is_digit_not; [assumption | reflexivity]. }
  repeat (destruct H as [H|H]);
    solve [apply Hd; assumption | subst c; repeat split; reflexivity].
Qed.

Lemma skip_ws_app (w t : str) :
  forallb is_ws w = true -> skip_ws (w ++ t) = skip_ws t.
Proof.
  induction w as [|c w IH]; intros Hw; [reflexivity|].
  cbn [forallb] in Hw. apply andb_true_iff in Hw. destruct Hw as [Hc Hw].
  cbn [app skip_ws]. rewrite Hc. auto.
Qed.

Lemma skip_ws_stop (c : char) (t : str) :
  is_ws c = false -> skip_ws (c :: t) = c :: t.
Proof. intros H. cbn [skip_ws]. rewrite H. reflexivity. Qed.

Lemma skip_ws_value (w s rest : str) :
  forallb is_ws w = true -> starts_value s ->
  skip_ws (w ++ s ++ rest) = s ++ rest.
Proof.
  intros Hw (c & t & -> & Hc). rewrite skip_ws_app by assumption.
  cbn [app]. apply skip_ws_stop. apply value_start_cases. assumption.
Qed.

Lemma repeat_ws (n : nat) : forallb is_ws (repeat 32 n) = true.
Proof. induction n; cbn [repeat forallb]; [reflexivity | assumption]. Qed.

Lemma newline_indent_ws (indent : option nat) (level : nat) :
  forallb is_ws (newline_indent indent level) = true.
Proof.
  destruct indent as [n|]; [|reflexivity].
  cbn [newline_indent forallb]. apply repeat_ws.
Qed.

Lemma separator_shape (indent : option nat) (level : nat) :
  exists w, item_separator indent ++ newline_indent indent level =
            ch "," :: w /\ forallb is_ws w = true.
Proof.
  destruct indent as [n|].
  - exists (newline_indent (Some n) level).
    split; [reflexivity | apply newline_indent_ws].
  - exists [32]. split; reflexivity.
Qed.

Lemma dict_set_fresh {FM : FloatModel} (d : dict) (k : str) (v : json) :
  existsb (str_eqb k) (map fst d) = false -> dict_set d k v = d ++ [(k, v)].
Proof.
  induction d as [|[k' v'] d IH]; [reflexivity|].
  cbn [map fst existsb dict_set app]. intros H.
  apply orb_false_iff in H. destruct H as [Hk Hd].
  apply str_eqb_neq in Hk.
  assert (Hk' : str_eqb k' k = false) by (apply str_eqb_neq; congruence).
  rewrite Hk', IH by assumption. reflexivity.
Qed.

Lemma dict_of_pairs_distinct_acc {FM : FloatModel}
    (pairs acc : list (str * json)) :
  distinct (map fst pairs) = true ->
  (forall k, In k (map fst pairs) ->
             existsb (str_eqb k) (map fst acc) = false) ->
  fold_left (fun d kv => dict_set d (fst kv) (snd kv)) pairs acc =
  acc ++ pairs.
Proof.
  revert acc. induction pairs as [|[k v] pairs IH]; intros acc Hd Hacc.
  - rewrite app_nil_r. reflexivity.
  - cbn [map fst distinct] in Hd. apply andb_true_iff in Hd.
    destruct Hd as [Hk Hd]. apply negb_true_iff in Hk.
    cbn [fold_left fst snd].
    rewrite dict_set_fresh by (apply Hacc; left; reflexivity).
    rewrite IH; [rewrite <- app_assoc; reflexivity | assumption |].
    intros k' Hin. rewrite map_app, existsb_app. cbn [map fst existsb].
    rewrite (Hacc k') by (right; assumption). rewrite orb_false_r.
    cbn [orb]. apply str_eqb_neq. intros ->.
    assert (Hex : existsb (str_eqb k) (map fst pairs) = true).
    { apply existsb_exists. exists k. split; [assumption|].
      apply str_eqb_refl. }
    congruence.
Qed.

(** [dict(pairs)] keeps a list of pairs with distinct keys as it is. *)
Lemma dict_of_pairs_distinct {FM : FloatModel} (pairs : list (str * json)) :
  distinct (map fst pairs) = true -> dict_of_pairs pairs = pairs.
Proof.
  intros Hd. unfold dict_of_pairs.
  rewrite dict_of_pairs_distinct_acc; [reflexivity | assumption |].
  intros; reflexivity.
Qed.

Section RoundTrip.
Context {FM : FloatModel}.

Lemma encode_arr indent level x xs :
  encode indent level (JArr (x :: xs)) =
  ch "[" :: newline_indent indent (S level) ++
  join (item_separator indent ++ newline_indent indent (S level))
       (map (encode indent (S level)) (x :: xs)) ++
  newline_indent indent level ++ [ch "]"].
Proof. reflexivity. Qed.

Lemma encode_obj indent level kv kvs :
  encode indent level (JObj (kv :: kvs)) =
  ch "{" :: newline_indent indent (S level) ++
  join (item_separator indent ++ newline_indent indent (S level))
       (map (member_text (encode indent (S level))) (kv :: kvs)) ++
  newline_indent indent level ++ [ch "}"].
Proof. reflexivity. Qed.

Lemma encode_starts_value indent level v :
  well_formed v = true -> starts_value (encode indent level v).
Proof.
  unfold starts_value. destruct v as [|b|z|f|s|xs|kvs]; intros Hwf.
  - eexists _, _. split; reflexivity.
  - destruct b; eexists _, _; split; reflexivity.
  - destruct (int_repr_head z) as (c & t & E & Hc).
    exists c, t. split; [exact E|]. unfold value_start.
    destruct Hc as [Hc| ->]; [rewrite Hc|]; reflexivity.
  - discriminate.
  - eexists _, _. split; reflexivity.
  - destruct xs; eexists _, _; split; reflexivity.
  - destruct kvs; eexists _, _; split; reflexivity.
Qed.

Lemma join_cons2 (sep a b : str) (l : list str) :
  join sep (a :: b :: l) = a ++ sep ++ join sep (b :: l).
Proof. reflexivity. Qed.

Lemma join_starts_value (sep : str) (parts : list str) :
  parts <> [] -> Forall starts_value parts -> starts_value (join sep parts).
Proof.
  intros Hne Hall. destruct parts as [|a [|b l]]; [congruence| |].
  - inversion Hall; assumption.
  - rewrite join_cons2. inversion Hall as [|? ? (c & t & -> & Hc) _]; subst.
    exists c, (t ++ sep ++ join sep (b :: l)). split; [reflexivity|assumption].
Qed.

Lemma parse_items_encoded (enc : json -> str) (w w2 : str) :
  forallb is_ws w = true -> forallb is_ws w2 = true ->
  forall xs, xs <> [] ->
    Forall (reads_back enc) xs ->
    Forall (fun x => starts_value (enc x)) xs ->
    forall fuel rest,
      (2 * length (join (ch "," :: w) (map enc xs)) + 1 < fuel)%nat ->
      parse_items fuel
        (join (ch "," :: w) (map enc xs) ++ w2 ++ ch "]" :: rest) =
      Ok xs rest.
Proof.
  intros Hw Hw2 xs. induction xs as [|x xs IH]; intros Hne Hrb Hsv fuel rest.
  { congruence. }
  inversion Hrb as [|? ? Hx Hrb']; subst.
  inversion Hsv as [|? ? Hsx Hsv']; subst.
  destruct fuel as [|fuel]; [lia|]. intros Hf.
  destruct xs as [|y xs].
  - cbn [map join] in *. cbn [parse_items].
    rewrite Hx; [| | lia].
    2:{ destruct w2 as [|c w2']; [reflexivity|].
        cbn [forallb] in Hw2. apply andb_true_iff in Hw2.
        cbn [app delimited]. destruct Hw2 as [-> _]. reflexivity. }
    rewrite skip_ws_app by assumption. rewrite skip_ws_stop by reflexivity.
    change (ch "]" =? ch "]") with true. reflexivity.
  - cbn [map] in *. rewrite join_cons2 in *. rewrite length_app in Hf.
    cbn [app length] in Hf. rewrite length_app in Hf.
    cbn [parse_items]. rewrite <- app_assoc. cbn [app].
    rewrite Hx; [| reflexivity | lia].
    rewrite skip_ws_stop by reflexivity.
    change (ch "," =? ch "]") with false.
    change (ch "," =? ch ",") with true.
    cbv iota. rewrite <- !app_assoc.
    assert (Hj : starts_value (join (ch "," :: w) (enc y :: map enc xs))).
    { apply (join_starts_value _ (map enc (y :: xs))); [discriminate|].
      apply Forall_map. assumption. }
    rewrite skip_ws_value by assumption.
    rewrite (IH ltac:(discriminate) Hrb' Hsv' fuel rest) by (cbn [map]; lia).
    reflexivity.
Qed.

Lemma join_members_head (enc : json -> str) (sep : str)
    (kvs : list (str * json)) :
  kvs <> [] ->
  exists t, join sep (map (member_text enc) kvs) = dquote :: t.
Proof.
  intros Hne. destruct kvs as [|kv [|kv2 l]]; [congruence| |].
  - eexists. reflexivity.
  - cbn [map]. rewrite join_cons2. eexists. reflexivity.
Qed.

Lemma parse_members_encoded (enc : json -> str) (w w2 : str) :
  forallb is_ws w = true -> forallb is_ws w2 = true ->
  forall kvs, kvs <> [] ->
    Forall (fun kv => reads_back enc (snd kv)) kvs ->
    Forall (fun kv => starts_value (enc (snd kv))) kvs ->
    Forall (fun kv => forallb is_scalar (fst kv) = true) kvs ->
    forall fuel rest,
      (2 * length (join (ch "," :: w) (map (member_text enc) kvs)) + 1
       < fuel)%nat ->
      parse_members fuel
        (tl (join (ch "," :: w) (map (member_text enc) kvs) ++
             w2 ++ ch "}" :: rest)) =
      Ok kvs rest.
Proof.
  intros Hw Hw2 kvs.
  induction kvs as [|[k v] kvs IH]; intros Hne Hrb Hsv Hks fuel rest.
  { congruence. }
  inversion Hrb as [|? ? Hx Hrb']; subst.
  inversion Hsv as [|? ? Hsx Hsv']; subst.
  inversion Hks as [|? ? Hk Hks']; subst.
  cbn [fst snd] in Hx, Hsx, Hk.
  destruct fuel as [|fuel]; [lia|]. intros Hf.
  assert (Hsp : forall r, skip_ws (32 :: enc v ++ r) = enc v ++ r).
  { intros r. apply (skip_ws_value [32]); [reflexivity | assumption]. }
  destruct kvs as [|kv2 kvs].
  - cbn [map join] in *. unfold member_text in *.
    unfold encode_basestring_ascii, key_separator in *. cbn [fst snd] in *.
    change (lit ": ") with [58; 32] in *.
    rewrite !length_app in Hf. cbn [length] in Hf. rewrite length_app in Hf.
    cbn [app]. rewrite <- !app_assoc. cbn [app tl parse_members].
    rewrite scanstring_escaped by assumption.
    rewrite skip_ws_stop by reflexivity.
    change (58 =? ch ":") with true. cbv iota.
    rewrite Hsp.
    rewrite Hx; [| | cbn [length] in Hf; lia].
    2:{ destruct w2 as [|c w2']; [reflexivity|].
        cbn [forallb] in Hw2. apply andb_true_iff in Hw2.
        cbn [app delimited]. destruct Hw2 as [-> _]. reflexivity. }
    rewrite skip_ws_app by assumption. rewrite skip_ws_stop by reflexivity.
    change (ch "}" =? ch "}") with true. reflexivity.
  - cbn [map] in *. rewrite join_cons2 in *.
    destruct (join_members_head enc (ch "," :: w) (kv2 :: kvs))
      as (t & E); [discriminate|].
    cbn [map] in E. rewrite E in *.
    specialize (IH ltac:(discriminate) Hrb' Hsv' Hks' fuel rest).
    cbn [app tl] in IH.
    unfold member_text in *.
    unfold encode_basestring_ascii, key_separator in *. cbn [fst snd] in *.
    change (lit ": ") with [58; 32] in *.
    rewrite !length_app in Hf. cbn [length] in Hf.
    rewrite !length_app in Hf. cbn [length] in Hf.
    cbn [app]. rewrite <- !app_assoc. cbn [app tl parse_members].
    rewrite scanstring_escaped by assumption.
    rewrite skip_ws_stop by reflexivity.
    change (58 =? ch ":") with true. cbv iota.
    rewrite Hsp.
    rewrite Hx;
      [| reflexivity | cbn [length] in Hf; lia].
    rewrite skip_ws_stop by reflexivity.
    change (ch "," =? ch "}") with false.
    change (ch "," =? ch ",") with true. cbv iota.
    rewrite <- !app_assoc. cbn [app].
    rewrite skip_ws_app by assumption. rewrite skip_ws_stop by reflexivity.
    change (dquote =? dquote) with true. cbv iota.
    rewrite IH by (cbn [length]; lia). reflexivity.
Qed.

Lemma forallb_Forall {A} (f : A -> bool) (l : list A) :
  forallb f l = true -> Forall (fun x => f x = true) l.
Proof. intros H. apply Forall_forall. apply forallb_forall. exact H. Qed.

(** The scanner reads the text of a well-formed value back as that
    value, whatever the indentation and whatever delimiter follows. *)
Lemma scan_once_encode (v : json) :
  well_formed v = true ->
  forall indent level, reads_back (encode indent level) v.
Proof.
  induction v as [|b|z|f|s|xs IH|kvs IH] using json_ind;
    intros Hwf indent level fuel rest Hrest Hfuel.
  - destruct fuel as [|fuel]; [lia|]. reflexivity.
  - destruct fuel as [|fuel]; [lia|]. destruct b; reflexivity.
  - destruct fuel as [|fuel]; [lia|].
    apply scan_once_int. apply delimited_number_ends. assumption.
  - discriminate.
  - destruct fuel as [|fuel]; [lia|].
    cbn [encode well_formed] in *. unfold encode_basestring_ascii.
    cbn [app scan_once]. change (dquote =? dquote) with true. cbv iota.
    rewrite <- app_assoc. cbn [app].
    rewrite scanstring_escaped by assumption. reflexivity.
  - destruct xs as [|x xs].
    { destruct fuel as [|fuel]; [lia|]. reflexivity. }
    cbn [well_formed] in Hwf. rewrite encode_arr in *.
    destruct (separator_shape indent (S level)) as (w & Ew & Hw).
    rewrite Ew in *.
    cbn [length] in Hfuel. rewrite !length_app in Hfuel.
    cbn [length] in Hfuel.
    destruct fuel as [|fuel]; [lia|].
    assert (Hsv : Forall (fun y => starts_value (encode indent (S level) y))
                    (x :: xs)).
    { apply Forall_forall. intros y Hy. apply encode_starts_value.
      apply (proj1 (forallb_forall _ _) Hwf). assumption. }
    assert (Hrb : Forall (reads_back (encode indent (S level))) (x :: xs)).
    { apply Forall_forall. intros y Hy.
      apply (proj1 (Forall_forall _ _) IH y Hy).
      apply (proj1 (forallb_forall _ _) Hwf). assumption. }
    assert (Hj : starts_value
                   (join (ch "," :: w)
                      (map (encode indent (S level)) (x :: xs)))).
    { apply join_starts_value; [discriminate|].
      apply Forall_map. assumption. }
    cbn [app scan_once].
    change (ch "[" =? dquote) with false.
    change (ch "[" =? ch "{") with false.
    change (ch "[" =? ch "[") with true. cbv iota.
    rewrite <- !app_assoc.
    rewrite skip_ws_value by (apply newline_indent_ws || assumption).
    destruct Hj as (c & t & Ej & Hc).
    pose proof (parse_items_encoded (encode indent (S level)) w
                  (newline_indent indent level) Hw
                  (newline_indent_ws indent level) (x :: xs)
                  ltac:(discriminate) Hrb Hsv fuel rest) as Hp.
    rewrite Ej in *. cbn [app] in *.
    destruct (value_start_cases c Hc) as (_ & -> & _).
    rewrite Hp by lia. reflexivity.
  - destruct kvs as [|kv kvs].
    { destruct fuel as [|fuel]; [lia|]. reflexivity. }
    cbn [well_formed] in Hwf. apply andb_true_iff in Hwf.
    destruct Hwf as [Hd Hwf]. rewrite encode_obj in *.
    destruct (separator_shape indent (S level)) as (w & Ew & Hw).
    rewrite Ew in *.
    cbn [length] in Hfuel. rewrite !length_app in Hfuel.
    cbn [length] in Hfuel.
    destruct fuel as [|fuel]; [lia|].
    assert (Hsv : Forall (fun kv' =>
                    starts_value (encode indent (S level) (snd kv')))
                    (kv :: kvs)).
    { apply Forall_forall. intros y Hy. apply encode_starts_value.
      pose proof (proj1 (forallb_forall _ _) Hwf y Hy) as Hy'.
      apply andb_true_iff in Hy'. apply Hy'. }
    assert (Hrb : Forall (fun kv' =>
                    reads_back (encode indent (S level)) (snd kv'))
                    (kv :: kvs)).
    { apply Forall_forall. intros y Hy.
      apply (proj1 (Forall_forall _ _) IH y Hy).
      pose proof (proj1 (forallb_forall _ _) Hwf y Hy) as Hy'.
      apply andb_true_iff in Hy'. apply Hy'. }
    assert (Hks : Forall (fun kv' => forallb is_scalar (fst kv') = true)
                    (kv :: kvs)).
    { apply Forall_forall. intros y Hy.
      pose proof (proj1 (forallb_forall _ _) Hwf y Hy) as Hy'.
      apply andb_true_iff in Hy'. apply Hy'. }
    pose proof (parse_members_encoded (encode indent (S level)) w
                  (newline_indent indent level) Hw
                  (newline_indent_ws indent level) (kv :: kvs)
                  ltac:(discriminate) Hrb Hsv Hks fuel rest) as Hp.
    destruct (join_members_head (encode indent (S level)) (ch "," :: w)
                (kv :: kvs) ltac:(discriminate)) as (t & Ej).
    rewrite Ej in *. cbn [app tl length] in *.
    cbn [scan_once].
    change (ch "{" =? dquote) with false.
    change (ch "{" =? ch "{") with true. cbv iota.
    rewrite <- !app_assoc. cbn [app].
    rewrite skip_ws_app by apply newline_indent_ws.
    rewrite skip_ws_stop by reflexivity.
    change (dquote =? ch "}") with false.
    change (dquote =? dquote) with true. cbv iota.
    rewrite <- !app_assoc. cbn [app].
    rewrite Hp by lia.
    rewrite dict_of_pairs_distinct by assumption. reflexivity.
Qed.

Lemma json_loads_encode (v : json) (indent : option nat) :
  well_formed v = true -> json_loads (encode indent 0 v) = Some v.
Proof.
  intros Hwf. unfold json_loads.
  destruct (encode_starts_value indent 0 v Hwf) as (c & t & E & Hc).
  pose proof (scan_once_encode v Hwf indent 0
                (fuel_for (encode indent 0 v)) [] eq_refl) as Hs.
  rewrite app_nil_r in Hs. rewrite E in *.
  assert (Hbom : starts_with [65279] (c :: t) = false).
  { cbn [starts_with]. unfold value_start in Hc.
    destruct (N.eqb_spec 65279 c) as [<-|]; [discriminate | reflexivity]. }
  rewrite Hbom.
  rewrite skip_ws_stop by (apply value_start_cases; assumption).
  rewrite Hs by (unfold fuel_for; lia). reflexivity.
Qed.

Lemma well_formed_texts (l : list str) :
  forallb is_text l = true -> well_formed (JArr (map JStr l)) = true.
Proof.
  cbn [well_formed]. induction l as [|a l IH]; [reflexivity|].
  cbn [forallb map]. intros H. apply andb_true_iff in H.
  destruct H as [Ha Hl]. cbn [well_formed]. fold (is_text a).
  rewrite Ha, IH by assumption. reflexivity.
Qed.

Lemma well_formed_criterion_score (c : criterion_score) :
  is_text (assessment c) = true -> forallb is_text (examples c) = true ->
  well_formed (criterion_score_json c) = true.
Proof.
  intros Ha He. pose proof (well_formed_texts _ He) as Hx.
  unfold criterion_score_json.
  set (xs := JArr (map JStr (examples c))) in *.
  cbn [well_formed map fst snd forallb].
  fold (is_text (assessment c)). rewrite Ha, Hx. reflexivity.
Qed.

Lemma report_json_well_formed (r : AuditReport) :
  report_ok r = true -> well_formed (report_json r) = true.
Proof.
  unfold report_ok. intros H. repeat rewrite andb_true_iff in H.
  destruct H as ((((Hd & Hc) & Hs) & Ha) & Hsum).
  pose proof (well_formed_texts _ Hs) as Hs'.
  pose proof (well_formed_texts _ Ha) as Ha'.
  assert (Hcs : well_formed
            (JObj (map (fun nc => (fst nc, criterion_score_json (snd nc)))
                       (criteria_scores r))) = true).
  { cbn [well_formed].
    assert (Ek : map fst (map (fun nc : str * criterion_score =>
                                 (fst nc, criterion_score_json (snd nc)))
                              (criteria_scores r)) =
                 map fst (criteria_scores r))
      by (rewrite map_map; reflexivity).
    rewrite Ek, Hd. cbn [andb]. clear Hd Ek. induction (criteria_scores r) as [|[n c] l IH];
      [reflexivity|].
    cbn [forallb map fst snd] in *.
    repeat rewrite andb_true_iff in Hc. destruct Hc as (((Hn & Hx) & He) & Hl).
    fold (is_text n). rewrite Hn, well_formed_criterion_score by assumption.
    apply IH. assumption. }
  unfold report_json.
  set (cs := JObj (map _ (criteria_scores r))) in *.
  set (ss := JArr (map JStr (strengths r))) in *.
  set (aa := JArr (map JStr (areas_for_improvement r))) in *.
  cbn [well_formed map fst snd forallb].
  fold (is_text (summary r)). rewrite Hcs, Hs', Ha', Hsum.
  reflexivity.
Qed.

End RoundTrip.

(** ** Substrings *)

Lemma starts_with_prefix (p s : str) :
  starts_with p s = true -> exists post, s = p ++ post.
Proof.
  revert s. induction p as [|a p IH]; intros s H.
  - exists s. reflexivity.
  - destruct s as [|b s]; [discriminate|]. cbn [starts_with] in H.
    apply andb_true_iff in H. destruct H as [Hab Hp].
    apply N.eqb_eq in Hab. subst b.
    destruct (IH s Hp) as (post & ->). exists post. reflexivity.
Qed.

Lemma str_contains_substring (needle hay : str) :
  str_contains needle hay = true -> substring needle hay.
Proof.
  induction hay as [|c hay IH]; cbn [str_contains]; intros H;
    apply orb_true_iff in H; destruct H as [H|H]; try discriminate.
  - apply starts_with_prefix in H. destruct H as (post & E).
    exists [], post. exact E.
  - apply starts_with_prefix in H. destruct H as (post & E).
    exists [], post. exact E.
  - destruct (IH H) as (pre & post & ->). exists (c :: pre), post.
    reflexivity.
Qed.

Lemma substring_inside (a b x y : str) :
  substring a b -> substring a (x ++ b ++ y).
Proof.
  intros (pre & post & ->). exists (x ++ pre), (post ++ y).
  rewrite <- !app_assoc. reflexivity.
Qed.

(** * The pipeline *)

Section Pipeline.
Context {FM : FloatModel}.
Variable OpenAI : str -> chat_request -> exn + str.

Lemma json_loads_empty : json_loads [] = None.
Proof. reflexivity. Qed.

Lemma decode_run (content : str) :
  decode content =
  ([EvJsonLoads content],
   Return match json_loads content with
          | Some analysis => analysis
          | None => parse_failure content
          end).
Proof. unfold decode. destruct (json_loads content); reflexivity. Qed.

(** The two ways [analyze_transcript] can go. *)
Lemma analyze_transcript_run (self : CallAuditApp) (transcript : str)
    (criteria : json) :
  let prompt := create_audit_prompt transcript (rubric_in_use criteria) in
  analyze_transcript self transcript criteria =
  match client self (request_for prompt) with
  | inl e => ([EvCompletion (request_for prompt)], Raise e)
  | inr content =>
      ([EvCompletion (request_for prompt); EvJsonLoads content],
       Return match json_loads content with
              | Some analysis => analysis
              | None => parse_failure content
              end)
  end.
Proof.
  intros prompt. unfold analyze_transcript, completions_create.
  fold (rubric_in_use criteria). fold prompt.
  destruct (client self (request_for prompt)) as [e|content].
  - reflexivity.
  - cbn [bind tell raise ret app]. rewrite decode_run. reflexivity.
Qed.

Lemma analyze_transcript_prompts (self : CallAuditApp) (transcript : str)
    (criteria : json) :
  prompts (trace (analyze_transcript self transcript criteria)) =
  [create_audit_prompt transcript (rubric_in_use criteria)].
Proof.
  pose proof (analyze_transcript_run self transcript criteria) as H.
  cbv zeta in H. rewrite H.
  destruct (client self _); reflexivity.
Qed.

Lemma audit_and_render_run (auditor : CallAuditApp)
    (transcript criteria_text : str) (custom : json) :
  let engine := analyze_transcript auditor transcript
                  (if truthy custom then custom else JNull) in
  audit_and_render auditor transcript criteria_text custom =
  (trace engine,
   match result engine with
   | Raise e => Raise e
   | Return analysis => render analysis transcript criteria_text
   end).
Proof.
  intros engine. unfold audit_and_render. fold engine.
  destruct engine as [t [analysis|e]]; cbn [bind trace result fst snd];
    [|reflexivity].
  unfold render, lift.
  destruct (contains (lit "error") analysis) as [[|]|e];
    cbn [bind ret app]; rewrite ?app_nil_r; try reflexivity.
  destruct (getitem analysis (lit "error")) as [detail|e];
    cbn [bind ret app]; rewrite ?app_nil_r; reflexivity.
Qed.

Lemma analyze_without_criteria (request : form) (api_key : str) :
  session_api_key request = Some api_key ->
  nonempty (request_transcript request) = true ->
  criteria_text_of request = [] ->
  analyze OpenAI request =
  audit_and_render (CallAuditApp_init OpenAI api_key)
    (request_transcript request) [] (JObj []).
Proof.
  intros Hk Ht Hc. unfold analyze. rewrite Hk, Ht, Hc. reflexivity.
Qed.

Lemma analyze_with_criteria (request : form) (api_key : str)
    (custom : json) :
  session_api_key request = Some api_key ->
  nonempty (request_transcript request) = true ->
  json_loads (criteria_text_of request) = Some custom ->
  analyze OpenAI request =
  (tell (EvJsonLoads (criteria_text_of request)) ;;;
   audit_and_render (CallAuditApp_init OpenAI api_key)
     (request_transcript request) (criteria_text_of request) custom).
Proof.
  intros Hk Ht Hc. unfold analyze. rewrite Hk, Ht. cbn [negb].
  destruct (criteria_text_of request) as [|c text] eqn:E.
  - rewrite json_loads_empty in Hc. discriminate.
  - cbn [nonempty]. rewrite Hc. reflexivity.
Qed.




Lemma render_not_text (analysis : json) (transcript criteria_text : str)
    (m : str) (a b : option str) :
  render analysis transcript criteria_text <>
  Return (RenderAudit (Text m) a b).
Proof.
  unfold render.
  destruct (contains (lit "error") analysis) as [[|]|e]; try discriminate.
  destruct (getitem analysis (lit "error")); discriminate.
Qed.

Lemma audit_and_render_not_text (auditor : CallAuditApp)
    (transcript criteria_text : str) (custom : json) (t : list event)
    (m : str) (a b : option str) :
  result (bind (t, Return tt) (fun _ =>
            audit_and_render auditor transcript criteria_text custom)) <>
  Return (RenderAudit (Text m) a b).
Proof.
  pose proof (audit_and_render_run auditor transcript criteria_text custom)
    as H.
  cbv zeta in H. rewrite H. cbn [bind result snd].
  destruct (result (analyze_transcript auditor transcript
                      (if truthy custom then custom else JNull)));
    [apply render_not_text | discriminate].
Qed.

End Pipeline.

(** * The claims *)

Section Claims.
Context {FM : FloatModel}.
Variable OpenAI : str -> chat_request -> exn + str.




(** C4.  A request without custom criteria is audited against the
    default rubric: the one prompt sent is built from
    [default_criteria], whose keys are the ten fixed names, in this
    order, each with a non-empty question. *)
Theorem default_rubric_without_custom (request : form) (api_key : str) :
  session_api_key request = Some api_key ->
  nonempty (request_transcript request) = true ->
  criteria_text_of request = [] ->
  prompts (trace (analyze OpenAI request)) =
    [create_audit_prompt (request_transcript request) default_criteria] /\
  default_criteria = JObj default_criteria_entries /\
  dict_keys default_criteria_entries =
    [lit "greeting"; lit "listening"; lit "problem_solving";
     lit "knowledge"; lit "empathy"; lit "clarity"; lit "resolution";
     lit "closing"; lit "adherence_to_protocol"; lit "professionalism"] /\
  Forall (fun kv => exists q, snd kv = JStr q /\ q <> [])
         default_criteria_entries.
Proof.
  intros Hk Ht Hc. repeat split.
  - rewrite (analyze_without_criteria OpenAI request api_key Hk Ht Hc).
    pose proof (audit_and_render_run (CallAuditApp_init OpenAI api_key)
                  (request_transcript request) [] (JObj [])) as H.
    cbv zeta in H. rewrite H. cbn [trace fst truthy].
    apply analyze_transcript_prompts.
  - unfold default_criteria_entries.
    repeat (apply Forall_cons;
            [eexists; split; [reflexivity | discriminate]|]).
    apply Forall_nil.
Qed.

(** C5.  A custom rubric that parses to a mapping with at least one
    entry is the rubric of the audit, entry for entry: the one prompt
    sent is built from that mapping and from nothing else. *)
Theorem custom_rubric_used_as_is (request : form) (api_key : str)
    (entries : list (str * json)) :
  session_api_key request = Some api_key ->
  nonempty (request_transcript request) = true ->
  json_loads (criteria_text_of request) = Some (JObj entries) ->
  entries <> [] ->
  prompts (trace (analyze OpenAI request)) =
    [create_audit_prompt (request_transcript request) (JObj entries)] /\
  rubric_in_use (JObj entries) = JObj entries.
Proof.
  intros Hk Ht Hc Hn. split; [|reflexivity].
  rewrite (analyze_with_criteria OpenAI request api_key _ Hk Ht Hc).
  pose proof (audit_and_render_run (CallAuditApp_init OpenAI api_key)
                (request_transcript request) (criteria_text_of request)
                (JObj entries)) as H.
  cbv zeta in H. rewrite H.
  destruct entries as [|kv entries]; [congruence|].
  cbn [truthy bind tell trace fst app prompts].
  apply analyze_transcript_prompts.
Qed.

(** C6.  The prompt for the default rubric holds the text of each of
    the ten questions and the transcript, character for character; the
    transcript comes last, followed only by the line break that closes
    the template. *)
Theorem default_prompt_contents (transcript : str) :
  let prompt := create_audit_prompt transcript default_criteria in
  Forall (fun kv => exists q, snd kv = JStr q /\ substring q prompt)
         default_criteria_entries /\
  substring transcript prompt /\
  prompt =
    (prompt_head ++ json_dumps_indent 2 default_criteria ++ prompt_middle) ++
    transcript ++ [newline].
Proof.
  intros prompt.
  assert (Hq : forall q,
            str_contains q (json_dumps_indent 2 default_criteria) = true ->
            substring q prompt).
  { intros q H. apply str_contains_substring in H.
    unfold prompt, create_audit_prompt. apply substring_inside. exact H. }
  split; [|split].
  - unfold default_criteria_entries.
    repeat (apply Forall_cons;
            [eexists; split; [reflexivity | apply Hq; vm_compute; reflexivity]|]).
    apply Forall_nil.
  - unfold prompt, create_audit_prompt.
    exists (prompt_head ++ json_dumps_indent 2 default_criteria ++
            prompt_middle), prompt_tail.
    rewrite <- !app_assoc. reflexivity.
  - unfold prompt, create_audit_prompt, prompt_tail.
    rewrite <- !app_assoc. reflexivity.
Qed.

(** C7.  When the call of the completion service raises, the engine
    ends with that same exception after this one call: nothing is
    decoded and no value is returned; the rest of the route does not
    catch it and renders nothing. *)
Theorem transport_error_propagates (self : CallAuditApp) (transcript : str)
    (criteria : json) (e : exn) :
  client self (engine_request transcript criteria) = inl e ->
  analyze_transcript self transcript criteria =
    ([EvCompletion (engine_request transcript criteria)], Raise e) /\
  (forall custom criteria_text,
     criteria = (if truthy custom then custom else JNull) ->
     audit_and_render self transcript criteria_text custom =
       ([EvCompletion (engine_request transcript criteria)], Raise e)).
Proof.
  intros He.
  pose proof (analyze_transcript_run self transcript criteria) as H.
  cbv zeta in H. fold (engine_request transcript criteria) in H.
  rewrite He in H.
  split; [exact H|].
  intros custom criteria_text ->.
  pose proof (audit_and_render_run self transcript criteria_text custom)
    as Hr.
  cbv zeta in Hr. rewrite Hr, H. reflexivity.
Qed.

(** C8.  The prompt is a function of the transcript and the rubric
    alone, and the transcript enters it whole and unchanged: the text
    around it does not depend on it, the prompt is longer than the
    prompt for the empty transcript by the length of the transcript,
    and two transcripts with the same prompt are equal. *)
Theorem prompt_is_deterministic (t1 t2 : str) (c1 c2 : json) :
  (t1 = t2 -> c1 = c2 ->
   create_audit_prompt t1 c1 = create_audit_prompt t2 c2) /\
  create_audit_prompt t1 c1 =
    (prompt_head ++ json_dumps_indent 2 c1 ++ prompt_middle) ++
    t1 ++ [newline] /\
  length (create_audit_prompt t1 c1) =
    (length (create_audit_prompt [] c1) + length t1)%nat /\
  (create_audit_prompt t1 c1 = create_audit_prompt t2 c1 -> t1 = t2).
Proof.
  assert (E : forall t c, create_audit_prompt t c =
            (prompt_head ++ json_dumps_indent 2 c ++ prompt_middle) ++
            t ++ [newline]).
  { intros t c. unfold create_audit_prompt, prompt_tail.
    rewrite <- !app_assoc. reflexivity. }
  repeat split.
  - intros -> ->. reflexivity.
  - apply E.
  - rewrite !E, !length_app. cbn [length]. lia.
  - rewrite !E. intros H. apply app_inv_head in H.
    apply app_inv_tail in H. exact H.
Qed.


(** C10.  Custom criteria that parse to a value Python takes for false
    are dropped: the audit runs as it does without custom criteria,
    its one prompt is built from the default rubric, and the criteria
    are not refused.  The six texts named in the claim parse to such
    values. *)
Theorem falsy_custom_rubric_defaults (request : form) (api_key : str)
    (custom : json) :
  session_api_key request = Some api_key ->
  nonempty (request_transcript request) = true ->
  json_loads (criteria_text_of request) = Some custom ->
  truthy custom = false ->
  prompts (trace (analyze OpenAI request)) =
    [create_audit_prompt (request_transcript request) default_criteria] /\
  analyze OpenAI request =
    (tell (EvJsonLoads (criteria_text_of request)) ;;;
     audit_and_render (CallAuditApp_init OpenAI api_key)
       (request_transcript request) (criteria_text_of request) JNull) /\
  result (analyze OpenAI request) <> refusal request /\
  Forall (fun text => exists v, json_loads text = Some v /\ truthy v = false)
         [lit "{}"; lit "0"; lit "false"; lit "null"; qlit "``"; lit "[]"].
Proof.
  intros Hk Ht Hc Hf.
  assert (Hlits : Forall (fun text => exists v,
                    json_loads text = Some v /\ truthy v = false)
                    [lit "{}"; lit "0"; lit "false"; lit "null"; qlit "``";
                     lit "[]"]).
  { repeat (apply Forall_cons;
            [eexists; split; [vm_compute; reflexivity | reflexivity]|]).
    apply Forall_nil. }

  rewrite (analyze_with_criteria OpenAI request api_key _ Hk Ht Hc).
  pose proof (audit_and_render_run (CallAuditApp_init OpenAI api_key)
                (request_transcript request) (criteria_text_of request)
                custom) as H.
  pose proof (audit_and_render_run (CallAuditApp_init OpenAI api_key)
                (request_transcript request) (criteria_text_of request)
                JNull) as H0.
  assert (Hno : result (tell (EvJsonLoads (criteria_text_of request)) ;;;
                        audit_and_render (CallAuditApp_init OpenAI api_key)
                          (request_transcript request)
                          (criteria_text_of request) custom)
                <> refusal request)
    by apply audit_and_render_not_text.
  revert Hno.
  cbv zeta in H, H0. rewrite H, H0, Hf. cbn [truthy]. intros Hno.
  split; [|split; [reflexivity | split; [exact Hno | exact Hlits]]].
  cbn [bind tell trace fst app prompts].
  apply analyze_transcript_prompts.
Qed.

End Claims.

(** * Further properties of the route *)

Section Route.
Context {FM : FloatModel}.
Variable OpenAI : str -> chat_request -> exn + str.

(** X1.  Without an API key stored for the session the route redirects
    to the index page; it parses nothing and calls no service. *)
Theorem no_session_redirects (request : form) :
  session_api_key request = None ->
  analyze OpenAI request = ([], Return (Redirect (lit "index"))).
Proof. intros H. unfold analyze. rewrite H. reflexivity. Qed.

(** X2.  With an empty transcript the route shows its own error page;
    it parses nothing and calls no service. *)
Theorem empty_transcript_is_refused (request : form) (api_key : str) :
  session_api_key request = Some api_key ->
  request_transcript request = [] ->
  analyze OpenAI request =
  ([], Return (RenderAudit (Text (lit "No transcript provided")) None None)).
Proof. intros Hk Ht. unfold analyze. rewrite Hk, Ht. reflexivity. Qed.


(** X4.  When the service answers with JSON that is a number, a
    boolean or [null], the test ['error' in analysis] raises
    [TypeError]: the route ends with that exception and renders no
    page. *)
Theorem scalar_response_raises (auditor : CallAuditApp)
    (transcript criteria_text payload : str) (custom v : json) :
  client auditor
    (engine_request transcript (if truthy custom then custom else JNull)) =
    inr payload ->
  json_loads payload = Some v ->
  match v with JObj _ | JArr _ | JStr _ => False | _ => True end ->
  result (audit_and_render auditor transcript criteria_text custom) =
  Raise TypeError.
Proof.
  intros Hc Hv Hs.
  pose proof (audit_and_render_run auditor transcript criteria_text custom)
    as H.
  pose proof (analyze_transcript_run auditor transcript
                (if truthy custom then custom else JNull)) as He.
  cbv zeta in H, He. unfold engine_request in Hc.
  rewrite H, He, Hc, Hv. cbn [result snd].
  destruct v; try contradiction; reflexivity.
Qed.


End Route.

(** * Sessions and stored keys *)

(** ** Dictionaries keyed by text *)

Lemma store_get_set_same {V} (d : store V) (k : str) (v : V) :
  store_get (store_set d k v) k = Some v.
Proof.
  induction d as [|[k' v'] d IH]; cbn [store_set store_get].
  - rewrite str_eqb_refl. reflexivity.
  - destruct (str_eqb k' k) eqn:E; cbn [store_get]; rewrite E;
      [reflexivity | exact IH].
Qed.

Lemma store_get_set_other {V} (d : store V) (k k0 : str) (v : V) :
  k0 <> k -> store_get (store_set d k v) k0 = store_get d k0.
Proof.
  intros Hne. induction d as [|[k' v'] d IH]; cbn [store_set store_get].
  - assert (E : str_eqb k k0 = false) by (apply str_eqb_neq; congruence).
    rewrite E. reflexivity.
  - destruct (str_eqb k' k) eqn:E; cbn [store_get].
    + apply str_eqb_eq in E. subst k'.
      assert (E : str_eqb k k0 = false) by (apply str_eqb_neq; congruence).
      rewrite E. reflexivity.
    + rewrite IH. reflexivity.
Qed.

Lemma store_get_del_same {V} (d : store V) (k : str) :
  store_get (store_del d k) k = None.
Proof.
  induction d as [|[k' v'] d IH]; cbn [store_del store_get]; [reflexivity|].
  destruct (str_eqb k' k) eqn:E; [exact IH|].
  cbn [store_get]. rewrite E. exact IH.
Qed.

Lemma store_get_del_other {V} (d : store V) (k k0 : str) :
  k0 <> k -> store_get (store_del d k) k0 = store_get d k0.
Proof.
  intros Hne. induction d as [|[k' v'] d IH]; cbn [store_del store_get];
    [reflexivity|].
  destruct (str_eqb k' k) eqn:E.
  - apply str_eqb_eq in E. subst k'.
    assert (E : str_eqb k k0 = false) by (apply str_eqb_neq; congruence).
    rewrite E. exact IH.
  - cbn [store_get]. rewrite IH. reflexivity.
Qed.

Lemma store_get_value {V} (P : V -> Prop) (d : store V) (k : str) (v : V) :
  Forall (fun kv => P (snd kv)) d -> store_get d k = Some v -> P v.
Proof.
  induction d as [|[k' v'] d IH]; cbn [store_get]; [discriminate|].
  intros Hall. inversion Hall as [|? ? Hv Hd]; subst.
  destruct (str_eqb k' k); [intros [= <-]; exact Hv | auto].
Qed.

Lemma store_set_values {V} (P : V -> Prop) (d : store V) (k : str) (v : V) :
  Forall (fun kv => P (snd kv)) d -> P v ->
  Forall (fun kv => P (snd kv)) (store_set d k v).
Proof.
  intros Hall Hv. induction Hall as [|[k' v'] d Hkv Hd IH];
    cbn [store_set].
  - constructor; [exact Hv | constructor].
  - destruct (str_eqb k' k); constructor; assumption.
Qed.

Lemma store_del_values {V} (P : V -> Prop) (d : store V) (k : str) :
  Forall (fun kv => P (snd kv)) d ->
  Forall (fun kv => P (snd kv)) (store_del d k).
Proof.
  intros Hall. induction Hall as [|[k' v'] d Hkv Hd IH];
    cbn [store_del]; [constructor|].
  destruct (str_eqb k' k); [exact IH | constructor; assumption].
Qed.

(** ** The stored key of a session through one request *)

Lemma with_session_id_same (w : world) (c : nat) (v : option str) :
  with_session_id w c v c = v.
Proof. unfold with_session_id. rewrite Nat.eqb_refl. reflexivity. Qed.

Lemma with_session_id_other (w : world) (c d : nat) (v : option str) :
  d <> c -> with_session_id w c v d = session_id w d.
Proof.
  intros H. unfold with_session_id.
  apply Nat.eqb_neq in H. rewrite H. reflexivity.
Qed.

(** A request changes the key stored under [sid] only when it is a
    [set_api_key] that draws [sid] or a [logout] of a session that
    holds [sid]. *)
Lemma act_keeps_key (w : world) (c : nat) (a : action) (sid : str) :
  session_id w c <> Some sid -> ~ In sid (new_ids [(c, a)]) ->
  store_get (api_key_storage (act w (c, a))) sid =
  store_get (api_key_storage w) sid.
Proof.
  intros Hs Hn. destruct a as [api_key new_id|];
    unfold act, set_api_key, logout; cbn [fst snd].
  - destruct (nonempty (form_get api_key [])); [|reflexivity].
    cbn [fst api_key_storage]. apply store_get_set_other.
    intros ->. apply Hn. cbn. auto.
  - cbn [api_key_storage].
    destruct (session_id w c) as [sid'|]; [|reflexivity].
    destruct (store_get (api_key_storage w) sid'); [|reflexivity].
    apply store_get_del_other. congruence.
Qed.

Section Sessions.
Context {FM : FloatModel}.
Variable OpenAI : str -> chat_request -> exn + str.

(** X6.  After [set_api_key] with a key, the client is sent to the
    audit form, the form is shown to it, and [/analyze] runs for it
    with the key it entered, whatever was stored before. *)
Theorem login_then_audit (c : nat) (key new_id : str) (w : world) :
  key <> [] ->
  snd (set_api_key c (Some key) new_id w) = GoTo (lit "audit_form") /\
  session_key c (act w (c, SetApiKey (Some key) new_id)) = Some key /\
  audit_form c (act w (c, SetApiKey (Some key) new_id)) = AuditPage /\
  forall request,
    analyze OpenAI
      (in_session c (act w (c, SetApiKey (Some key) new_id)) request) =
    analyze OpenAI
      {| session_api_key := Some key;
         transcript_file := transcript_file request;
         transcript_text := transcript_text request;
         custom_criteria := custom_criteria request |}.
Proof.
  intros Hk.
  assert (Hn : nonempty key = true) by (destruct key; [contradiction | reflexivity]).
  assert (Hs : session_key c (act w (c, SetApiKey (Some key) new_id)) =
               Some key).
  { unfold act, set_api_key, session_key. cbn [fst snd form_get].
    rewrite Hn. cbn [fst session_id api_key_storage].
    rewrite with_session_id_same. apply store_get_set_same. }
  repeat split.
  - unfold set_api_key. cbn [form_get]. rewrite Hn. reflexivity.
  - exact Hs.
  - unfold audit_form. rewrite Hs. reflexivity.
  - intros request. unfold in_session. rewrite Hs. reflexivity.
Qed.

(** X7.  After [logout] the client has no session and its key is gone
    from the store: the audit form and [/analyze] send it back to the
    index page, and [/analyze] parses nothing and calls no service. *)
Theorem logout_releases_key (c : nat) (w : world) :
  session_key c (act w (c, Logout)) = None /\
  (forall sid, session_id w c = Some sid ->
     store_get (api_key_storage (act w (c, Logout))) sid = None) /\
  audit_form c (act w (c, Logout)) = GoTo (lit "index") /\
  forall request,
    analyze OpenAI (in_session c (act w (c, Logout)) request) =
    ([], Return (Redirect (lit "index"))).
Proof.
  assert (Hs : session_key c (act w (c, Logout)) = None).
  { unfold act, logout, session_key. cbn [fst snd session_id].
    rewrite with_session_id_same. reflexivity. }
  repeat split.
  - exact Hs.
  - intros sid Hsid. unfold act, logout. cbn [fst snd api_key_storage].
    rewrite Hsid.
    destruct (store_get (api_key_storage w) sid) eqn:E;
      [apply store_get_del_same | exact E].
  - unfold audit_form. rewrite Hs. reflexivity.
  - intros request. unfold analyze, in_session. cbn [session_api_key].
    rewrite Hs. reflexivity.
Qed.

End Sessions.

(** X8.  A request of one client leaves every other client logged in
    with its own key, provided the other client's session id is
    neither the one the request draws nor the one the requesting
    client holds.  When [uuid4] draws the id of another client's
    session, that client's key is replaced by the new one. *)
Theorem other_sessions_untouched (c d : nat) (a : action) (w : world)
    (sid : str) :
  d <> c ->
  session_id w d = Some sid ->
  (session_id w c <> Some sid -> ~ In sid (new_ids [(c, a)]) ->
   session_key d (act w (c, a)) = session_key d w) /\
  (forall key, key <> [] ->
     session_key d (act w (c, SetApiKey (Some key) sid)) = Some key).
Proof.
  intros Hdc Hd.
  assert (Hsame : forall a', session_id (act w (c, a')) d = Some sid).
  { intros a'. destruct a' as [api_key new_id|];
      unfold act, set_api_key, logout; cbn [fst snd].
    - destruct (nonempty (form_get api_key [])); cbn [fst session_id];
        [rewrite with_session_id_other by assumption|]; exact Hd.
    - cbn [session_id]. rewrite with_session_id_other by assumption.
      exact Hd. }
  split.
  - intros Hc Hn. unfold session_key. rewrite Hsame, Hd.
    apply act_keeps_key; assumption.
  - intros key Hk. unfold session_key. rewrite Hsame.
    assert (Hn : nonempty key = true) by (destruct key; [contradiction | reflexivity]).
    unfold act, set_api_key. cbn [fst snd form_get]. rewrite Hn.
    cbn [fst api_key_storage]. apply store_get_set_same.
Qed.

Lemma act_keeps_keys_nonempty (w : world) (ca : nat * action) :
  Forall (fun kv => snd kv <> []) (api_key_storage w) ->
  Forall (fun kv => snd kv <> []) (api_key_storage (act w ca)).
Proof.
  intros H. destruct ca as [c [api_key new_id|]];
    unfold act, set_api_key, logout; cbn [fst snd].
  - destruct (nonempty (form_get api_key [])) eqn:E; [|exact H].
    cbn [fst api_key_storage].
    apply (store_set_values (fun v : str => v <> [])); [exact H|].
    destruct (form_get api_key []); [discriminate | discriminate].
  - cbn [api_key_storage].
    destruct (session_id w c) as [sid|]; [|exact H].
    destruct (store_get (api_key_storage w) sid); [|exact H].
    apply (store_del_values (fun v : str => v <> [])). exact H.
Qed.

(** X9.  Whatever requests clients send from the start of the program
    on, no stored key is empty: the key of a session that passes the
    session check of [/analyze], with which the client of the
    completion service is built, is not empty. *)
Theorem stored_keys_are_nonempty (l : list (nat * action)) (c : nat)
    (key : str) :
  session_key c (run initial_world l) = Some key -> key <> [].
Proof.
  assert (Hinv : forall w, Forall (fun kv => snd kv <> [])
                             (api_key_storage w) ->
                 Forall (fun kv => snd kv <> [])
                   (api_key_storage (run w l))).
  { unfold run. induction l as [|ca l IH]; intros w Hw; [exact Hw|].
    cbn [fold_left]. apply IH. apply act_keeps_keys_nonempty. exact Hw. }
  specialize (Hinv initial_world (Forall_nil _)).
  intros Hk. unfold session_key in Hk.
  destruct (session_id (run initial_world l) c) as [sid|];
    [|discriminate].
  exact (store_get_value (fun v : str => v <> []) _ _ _ Hinv Hk).
Qed.



(** * The answer of the service and the page *)

Section Answers.
Context {FM : FloatModel}.
Variable OpenAI : str -> chat_request -> exn + str.

Lemma result_after_tell {A} (ev : event) (m : M A) :
  result (tell ev ;;; m) = result m.
Proof. destruct m as [t r]. reflexivity. Qed.

(** The result of the route for a request that reaches the engine, as
    a function of the answer of the service. *)
Lemma analyze_outcome (request : form) (api_key : str) :
  session_api_key request = Some api_key ->
  nonempty (request_transcript request) = true ->
  criteria_accepted request = true ->
  result (analyze OpenAI request) =
  match OpenAI api_key
          (engine_request (request_transcript request)
             (criteria_argument request)) with
  | inl e => Raise e
  | inr content =>
      render match json_loads content with
             | Some analysis => analysis
             | None => parse_failure content
             end
        (request_transcript request) (criteria_text_of request)
  end.
Proof.
  intros Hk Ht Ha.
  assert (Hrun : forall custom,
    criteria_argument request = (if truthy custom then custom else JNull) ->
    result (audit_and_render (CallAuditApp_init OpenAI api_key)
              (request_transcript request) (criteria_text_of request)
              custom) =
    match OpenAI api_key
            (engine_request (request_transcript request)
               (criteria_argument request)) with
    | inl e => Raise e
    | inr content =>
        render match json_loads content with
               | Some analysis => analysis
               | None => parse_failure content
               end
          (request_transcript request) (criteria_text_of request)
    end).
  { intros custom Hc.
    pose proof (audit_and_render_run (CallAuditApp_init OpenAI api_key)
                  (request_transcript request) (criteria_text_of request)
                  custom) as H.
    pose proof (analyze_transcript_run (CallAuditApp_init OpenAI api_key)
                  (request_transcript request)
                  (if truthy custom then custom else JNull)) as He.
    cbv zeta in H, He. rewrite H, He, Hc. unfold engine_request.
    cbn [client CallAuditApp_init].
    destruct (OpenAI api_key _); reflexivity. }
  unfold criteria_accepted in Ha. unfold criteria_argument in Hrun |- *.
  destruct (nonempty (criteria_text_of request)) eqn:Hn.
  - cbn [negb orb] in Ha.
    destruct (json_loads (criteria_text_of request)) as [custom|] eqn:Hc;
      [|discriminate].
    rewrite (analyze_with_criteria OpenAI request api_key _ Hk Ht Hc).
    rewrite result_after_tell. apply Hrun. reflexivity.
  - assert (Hc : criteria_text_of request = [])
      by (destruct (criteria_text_of request); [reflexivity|discriminate]).
    rewrite (analyze_without_criteria OpenAI request api_key Hk Ht Hc).
    rewrite <- Hc at 1. apply Hrun. reflexivity.
Qed.


Lemma report_has_no_error_key (r : AuditReport) :
  contains (lit "error") (report_json r) = Return false.
Proof. reflexivity. Qed.

(** X12.  When the service answers with the text [json.dumps] writes
    for a report, indented or not, the route renders the results page
    with that report as the analysis. *)
Theorem served_report_is_rendered (request : form) (api_key : str)
    (r : AuditReport) (indent : option nat) :
  session_api_key request = Some api_key ->
  nonempty (request_transcript request) = true ->
  criteria_accepted request = true ->
  report_ok r = true ->
  OpenAI api_key
    (engine_request (request_transcript request)
       (criteria_argument request)) = inr (encode indent 0 (report_json r)) ->
  result (analyze OpenAI request) =
  Return (RenderResults (report_json r) (request_transcript request)).
Proof.
  intros Hk Ht Ha Hr Hp.
  rewrite (analyze_outcome request api_key Hk Ht Ha), Hp.
  rewrite json_loads_encode by (apply report_json_well_formed; exact Hr).
  unfold render. rewrite report_has_no_error_key. reflexivity.
Qed.

End Answers.

(** * The rubric in the prompt *)

Lemma hex_digit_ascii (d : N) : d < 16 -> is_ascii (hex_digit d) = true.
Proof.
  intros Hd. unfold is_ascii, hex_digit. apply N.ltb_lt.
  destruct (N.ltb_spec d 10); lia.
Qed.

Lemma u_escape_ascii (n : N) :
  n < 65536 -> forallb is_ascii (u_escape n) = true.
Proof.
  intros Hn. unfold u_escape. cbn [forallb].
  rewrite !hex_digit_ascii; [reflexivity | ..].
  - apply N.mod_lt; lia.
  - apply N.mod_lt; lia.
  - apply N.mod_lt; lia.
  - apply N.Div0.div_lt_upper_bound; lia.
Qed.

Lemma lor_surrogate_base (base x : N) :
  base = 55296 \/ base = 56320 -> N.lor base (N.land x 1023) < 65536.
Proof.
  intros Hb.
  assert (Hx : N.land x 1023 < 2 ^ 10).
  { change 1023 with (N.ones 10). rewrite N.land_ones.
    apply N.mod_lt. discriminate. }
  destruct Hb as [-> | ->].
  - change 55296 with (N.shiftl 54 10).
    rewrite lor_shiftl_small by assumption. change (2 ^ 10) with 1024 in *.
    lia.
  - change 56320 with (N.shiftl 55 10).
    rewrite lor_shiftl_small by assumption. change (2 ^ 10) with 1024 in *.
    lia.
Qed.

Lemma escape_char_ascii (c : char) : forallb is_ascii (escape_char c) = true.
Proof.
  unfold escape_char.
  repeat match goal with
         | |- context [if ?x =? ?y then _ else _] =>
             destruct (x =? y); [reflexivity|]
         end.
  destruct ((32 <=? c) && (c <=? 126)) eqn:Hp.
  { apply andb_true_iff in Hp. destruct Hp as [_ Hp].
    apply N.leb_le in Hp. cbn [forallb]. unfold is_ascii.
    rewrite andb_true_r. apply N.ltb_lt. lia. }
  destruct (N.ltb_spec c 65536) as [Hs|Hs].
  - apply u_escape_ascii. assumption.
  - cbv zeta. rewrite forallb_app.
    rewrite !u_escape_ascii; [reflexivity | ..];
      apply lor_surrogate_base; auto.
Qed.

Lemma encode_basestring_ascii_is_ascii (s : str) :
  forallb is_ascii (encode_basestring_ascii s) = true.
Proof.
  unfold encode_basestring_ascii. cbn [forallb]. rewrite forallb_app.
  cbn [forallb]. change (is_ascii dquote) with true. cbn [andb].
  rewrite andb_true_r.
  induction s as [|c s IH]; [reflexivity|].
  cbn [flat_map]. rewrite forallb_app, escape_char_ascii, IH. reflexivity.
Qed.

Lemma is_digit_ascii (c : char) : is_digit c = true -> is_ascii c = true.
Proof.
  unfold is_digit, is_ascii. intros H. apply andb_true_iff in H.
  destruct H as [_ H]. apply N.leb_le in H. apply N.ltb_lt. lia.
Qed.

Lemma digits_ascii (ds : str) :
  forallb is_digit ds = true -> forallb is_ascii ds = true.
Proof.
  induction ds as [|c ds IH]; [reflexivity|]. cbn [forallb].
  intros H. apply andb_true_iff in H. destruct H as [Hc Hd].
  rewrite is_digit_ascii, IH by assumption. reflexivity.
Qed.

Lemma int_repr_ascii (z : Z) : forallb is_ascii (int_repr z) = true.
Proof.
  destruct z as [|p|p]; unfold int_repr; [reflexivity | |].
  - apply digits_ascii. apply uint_chars_digits.
  - cbn [forallb]. rewrite digits_ascii by apply uint_chars_digits.
    reflexivity.
Qed.

Lemma newline_indent_ascii (indent : option nat) (level : nat) :
  forallb is_ascii (newline_indent indent level) = true.
Proof.
  destruct indent as [n|]; [|reflexivity].
  cbn [newline_indent forallb]. change (is_ascii newline) with true.
  cbn [andb]. induction (n * level)%nat; [reflexivity | assumption].
Qed.

Lemma item_separator_ascii (indent : option nat) :
  forallb is_ascii (item_separator indent) = true.
Proof. destruct indent; reflexivity. Qed.

Lemma join_ascii (sep : str) (parts : list str) :
  forallb is_ascii sep = true ->
  Forall (fun p => forallb is_ascii p = true) parts ->
  forallb is_ascii (join sep parts) = true.
Proof.
  intros Hs Hp. induction Hp as [|p parts Hp Hps IH]; [reflexivity|].
  destruct parts as [|p2 parts]; [exact Hp|].
  rewrite join_cons2, !forallb_app, Hp, Hs, IH. reflexivity.
Qed.

Lemma substring_join (sep p : str) (parts : list str) :
  In p parts -> substring p (join sep parts).
Proof.
  induction parts as [|a parts IH]; [contradiction|].
  intros [-> | Hin].
  - destruct parts as [|b parts].
    + exists [], []. cbn [join app]. rewrite app_nil_r. reflexivity.
    + exists [], (sep ++ join sep (b :: parts)). reflexivity.
  - destruct parts as [|b parts]; [contradiction|].
    rewrite join_cons2. destruct (IH Hin) as (pre & post & E).
    exists (a ++ sep ++ pre), post. rewrite E.
    rewrite <- !app_assoc. reflexivity.
Qed.

Lemma substring_ascii (a b : str) :
  substring a b -> forallb is_ascii b = true -> forallb is_ascii a = true.
Proof.
  intros (pre & post & ->) H. rewrite !forallb_app in H.
  apply andb_true_iff in H. destruct H as [_ H].
  apply andb_true_iff in H. apply H.
Qed.

Lemma escape_char_plain (c : char) : is_plain c = true -> escape_char c = [c].
Proof.
  unfold is_plain. intros H. repeat rewrite andb_true_iff in H.
  destruct H as (((H1 & H2) & H3) & H4).
  apply N.leb_le in H1, H2. apply negb_true_iff in H3, H4.
  unfold escape_char. rewrite H4, H3.
  assert (E : forall n, n < 32 -> (c =? n) = false)
    by (intros n Hn; apply N.eqb_neq; lia).
  rewrite !E by lia.
  apply N.leb_le in H1, H2. rewrite H1, H2. reflexivity.
Qed.

Lemma escape_plain (s : str) :
  forallb is_plain s = true -> flat_map escape_char s = s.
Proof.
  induction s as [|c s IH]; [reflexivity|]. cbn [forallb flat_map].
  intros H. apply andb_true_iff in H. destruct H as [Hc Hs].
  rewrite escape_char_plain, IH by assumption. reflexivity.
Qed.

Section RubricInPrompt.
Context {FM : FloatModel}.

Lemma encode_ascii (v : json) :
  float_free v = true ->
  forall indent level, forallb is_ascii (encode indent level v) = true.
Proof.
  induction v as [|b|z|f|s|xs IH|kvs IH] using json_ind;
    intros Hf indent level.
  - reflexivity.
  - destruct b; reflexivity.
  - apply int_repr_ascii.
  - discriminate.
  - apply encode_basestring_ascii_is_ascii.
  - destruct xs as [|x xs]; [reflexivity|].
    rewrite encode_arr. cbn [forallb]. rewrite !forallb_app.
    rewrite !newline_indent_ascii. cbn [forallb andb].
    rewrite andb_true_r. change (is_ascii (ch "[")) with true. cbn [andb].
    apply join_ascii.
    + rewrite forallb_app, item_separator_ascii, newline_indent_ascii.
      reflexivity.
    + apply Forall_map. cbn [float_free] in Hf.
      apply Forall_forall. intros y Hy.
      apply (proj1 (Forall_forall _ _) IH y Hy).
      apply (proj1 (forallb_forall _ _) Hf). assumption.
  - destruct kvs as [|kv kvs]; [reflexivity|].
    rewrite encode_obj. cbn [forallb]. rewrite !forallb_app.
    rewrite !newline_indent_ascii. cbn [forallb andb].
    rewrite andb_true_r. change (is_ascii (ch "{")) with true. cbn [andb].
    apply join_ascii.
    + rewrite forallb_app, item_separator_ascii, newline_indent_ascii.
      reflexivity.
    + apply Forall_map. cbn [float_free] in Hf.
      apply Forall_forall. intros y Hy. unfold member_text.
      rewrite !forallb_app, encode_basestring_ascii_is_ascii.
      change (forallb is_ascii key_separator) with true. cbn [andb].
      apply (proj1 (Forall_forall _ _) IH y Hy).
      apply (proj1 (forallb_forall _ _) Hf y Hy).
Qed.

(** X13.  Whatever the rubric (floats aside), everything in the prompt
    but the transcript is ASCII: [json.dumps] writes every other
    character of the rubric as an escape, so a question with a
    character beyond ASCII does not occur in the text around the
    transcript as it was entered. *)
Theorem rubric_is_sent_in_ascii (rubric : json) (transcript question : str) :
  float_free rubric = true ->
  create_audit_prompt transcript rubric =
    (prompt_head ++ json_dumps_indent 2 rubric ++ prompt_middle) ++
    transcript ++ [newline] /\
  forallb is_ascii
    (prompt_head ++ json_dumps_indent 2 rubric ++ prompt_middle) = true /\
  (forallb is_ascii question = false ->
   ~ substring question
       (prompt_head ++ json_dumps_indent 2 rubric ++ prompt_middle)).
Proof.
  intros Hf.
  assert (Ha : forallb is_ascii
                 (prompt_head ++ json_dumps_indent 2 rubric ++ prompt_middle)
               = true).
  { rewrite !forallb_app. unfold json_dumps_indent.
    rewrite encode_ascii by assumption.
    change (forallb is_ascii prompt_head) with true.
    assert (Hm : forallb is_ascii prompt_middle = true)
      by (vm_compute; reflexivity).
    rewrite Hm. reflexivity. }
  split; [|split].
  - unfold create_audit_prompt, prompt_tail. rewrite <- !app_assoc.
    reflexivity.
  - exact Ha.
  - intros Hq Hsub. apply substring_ascii in Hsub; [congruence | exact Ha].
Qed.

(** X14.  A question of a custom rubric made of printable ASCII
    without double quote and backslash, under a name of the same kind,
    reaches the prompt as it was entered, between double quotes after
    its quoted name. *)
Theorem plain_question_is_verbatim (entries : list (str * json))
    (name question transcript : str) :
  In (name, JStr question) entries ->
  forallb is_plain name = true ->
  forallb is_plain question = true ->
  substring
    (dquote :: name ++ dquote :: lit ": " ++ dquote :: question ++ [dquote])
    (create_audit_prompt transcript (JObj entries)).
Proof.
  intros Hin Hn Hq.
  unfold create_audit_prompt, json_dumps_indent.
  apply substring_inside.
  destruct entries as [|kv kvs]; [contradiction|].
  rewrite encode_obj.
  change (ch "{" :: ?x) with ([ch "{"] ++ x).
  apply (substring_inside _ _
           ([ch "{"] ++ newline_indent (Some 2%nat) 1%nat)
           (newline_indent (Some 2%nat) 0%nat ++ [ch "}"])).
  apply substring_join.
  apply in_map_iff. exists (name, JStr question). split; [|exact Hin].
  unfold member_text, encode_basestring_ascii. cbn [fst snd encode].
  unfold encode_basestring_ascii.
  rewrite !escape_plain by assumption.
  cbn [app]. rewrite <- !app_assoc. reflexivity.
Qed.

End RubricInPrompt.

(** * The uploaded file *)

Section UploadFacts.
Context {FM : FloatModel}.
Variable OpenAI : str -> chat_request -> exn + str.
Variable secure_filename : str -> str.
Variable writable : str -> bool.
Variable read_text : list N -> option str.

(** X15.  When the uploaded file is saved and read, the route goes on
    with the text of the file as transcript, whatever the text area
    holds, and the file is removed: afterwards no file is stored under
    the upload path, not even one that was there before, and every
    other file is as it was. *)
Theorem upload_is_removed_after_reading (c : nat) (w : world)
    (files : store (list N)) (f : upload) (text criteria : option str)
    (key transcript : str) :
  session_key c w = Some key ->
  nonempty (upload_name f) = true ->
  writable (upload_path secure_filename f) = true ->
  read_text (upload_bytes f) = Some transcript ->
  snd (analyze_upload OpenAI secure_filename writable read_text
         c w files (Some f) text criteria) =
    Served (analyze OpenAI
              {| session_api_key := Some key;
                 transcript_file := Some transcript;
                 transcript_text := text;
                 custom_criteria := criteria |}) /\
  store_get (fst (analyze_upload OpenAI secure_filename writable read_text
                    c w files (Some f) text criteria))
            (upload_path secure_filename f) = None /\
  forall p, p <> upload_path secure_filename f ->
    store_get (fst (analyze_upload OpenAI secure_filename writable read_text
                      c w files (Some f) text criteria)) p =
    store_get files p.
Proof.
  intros Hk Hn Hw Hr. unfold analyze_upload.
  rewrite Hk, Hn, Hw, store_get_set_same, Hr. cbn [fst snd].
  repeat split.
  - apply store_get_del_same.
  - intros p Hp. rewrite store_get_del_other, store_get_set_other
      by assumption. reflexivity.
Qed.

(** X16.  When reading the saved file raises, the exception leaves the
    route before [os.remove]: the uploaded bytes stay stored under the
    upload path, and no page is rendered. *)
Theorem unreadable_upload_is_left_behind (c : nat) (w : world)
    (files : store (list N)) (f : upload) (text criteria : option str)
    (key : str) :
  session_key c w = Some key ->
  nonempty (upload_name f) = true ->
  writable (upload_path secure_filename f) = true ->
  read_text (upload_bytes f) = None ->
  snd (analyze_upload OpenAI secure_filename writable read_text
         c w files (Some f) text criteria) = ReadFailed /\
  store_get (fst (analyze_upload OpenAI secure_filename writable read_text
                    c w files (Some f) text criteria))
            (upload_path secure_filename f) = Some (upload_bytes f) /\
  forall p, p <> upload_path secure_filename f ->
    store_get (fst (analyze_upload OpenAI secure_filename writable read_text
                      c w files (Some f) text criteria)) p =
    store_get files p.
Proof.
  intros Hk Hn Hw Hr. unfold analyze_upload.
  rewrite Hk, Hn, Hw, store_get_set_same, Hr. cbn [fst snd].
  repeat split.
  - apply store_get_set_same.
  - intros p Hp. apply store_get_set_other. assumption.
Qed.

(** X17.  An upload from a client without a session is not written:
    the files are as they were, the route redirects to the index page
    and calls no service. *)
Theorem upload_needs_session (c : nat) (w : world)
    (files : store (list N)) (file : option upload)
    (text criteria : option str) :
  session_key c w = None ->
  analyze_upload OpenAI secure_filename writable read_text
    c w files file text criteria =
  (files, Served ([], Return (Redirect (lit "index")))).
Proof.
  intros Hk. unfold analyze_upload, analyze. rewrite Hk. reflexivity.
Qed.

(** X18.  An uploaded file takes the place of the text area even when
    it is empty: if its text is empty the route answers that no
    transcript was provided, whatever the text area holds, and calls
    no service. *)
Theorem empty_upload_hides_text_area (c : nat) (w : world)
    (files : store (list N)) (f : upload) (text criteria : option str)
    (key : str) :
  session_key c w = Some key ->
  nonempty (upload_name f) = true ->
  writable (upload_path secure_filename f) = true ->
  read_text (upload_bytes f) = Some [] ->
  snd (analyze_upload OpenAI secure_filename writable read_text
         c w files (Some f) text criteria) =
  Served ([], Return (RenderAudit (Text (lit "No transcript provided"))
                        None None)).
Proof.
  intros Hk Hn Hw Hr. unfold analyze_upload.
  rewrite Hk, Hn, Hw, store_get_set_same, Hr. reflexivity.
Qed.

End UploadFacts.

(** * The route from request to page *)

Section WholeRoute.
Context {FM : FloatModel}.
Variable OpenAI : str -> chat_request -> exn + str.



(** X20.  Custom criteria that are the text [json.dumps] writes for a
    well-formed value Python takes for true, with any indentation, are
    read back to that value: the one prompt sent is the prompt for it,
    and holds it written with an indentation of two. *)
Theorem written_rubric_is_used (request : form) (api_key : str)
    (rubric : json) (indent : option nat) :
  session_api_key request = Some api_key ->
  nonempty (request_transcript request) = true ->
  well_formed rubric = true ->
  truthy rubric = true ->
  criteria_text_of request = encode indent 0 rubric ->
  prompts (trace (analyze OpenAI request)) =
    [create_audit_prompt (request_transcript request) rubric] /\
  substring (json_dumps_indent 2 rubric)
    (create_audit_prompt (request_transcript request) rubric).
Proof.
  intros Hk Ht Hw Htr Hc.
  assert (Hl : json_loads (criteria_text_of request) = Some rubric)
    by (rewrite Hc; apply json_loads_encode; exact Hw).
  split.
  - rewrite (analyze_with_criteria OpenAI request api_key _ Hk Ht Hl).
    pose proof (audit_and_render_run (CallAuditApp_init OpenAI api_key)
                  (request_transcript request) (criteria_text_of request)
                  rubric) as H.
    cbv zeta in H. rewrite H, Htr.
    cbn [bind tell trace fst app prompts].
    rewrite analyze_transcript_prompts.
    destruct rubric; try reflexivity. discriminate.
  - unfold create_audit_prompt. apply substring_inside.
    exists [], []. rewrite app_nil_r. reflexivity.
Qed.

End WholeRoute.

(** * Concrete runs *)

#[local] Existing Instance symbolic_float.

(** ** The [json] model on sample texts

    Each of these is what Python's [json] module gives on the same
    input. *)

Example loads_nested :
  json_loads (qlit " {`a` : [1, -20, true, null], `b`: {}} ") =
  Some (JObj [(lit "a", JArr [JInt 1; JInt (-20); JBool true; JNull]);
              (lit "b", JObj [])]).
Proof. vm_compute. reflexivity. Qed.

Example loads_repeated_key :
  json_loads (qlit "{`a`: 1, `b`: 2, `a`: 3}") =
  Some (JObj [(lit "a", JInt 3); (lit "b", JInt 2)]).
Proof. vm_compute. reflexivity. Qed.

Example loads_surrogate_pair :
  json_loads (qlit "`\ud83d\ude00 \u00e9`") = Some (JStr [128512; 32; 233]).
Proof. vm_compute. reflexivity. Qed.

Example loads_float_and_constants :
  json_loads (lit "[1.5e3, NaN, -Infinity]") =
  Some (JArr [JFloat (SLexeme (lit "1.5e3")); JFloat SNaN; JFloat SNegInf]).
Proof. vm_compute. reflexivity. Qed.

Example loads_rejects :
  map json_loads
    [lit "not valid json"; lit "[1,]"; lit "01"; lit "1."; lit "{a: 1}";
     qlit "{`a`: 1,}"; qlit "`abc"; lit "[1 2]"; lit "nul"; []] =
  repeat None 10.
Proof. vm_compute. reflexivity. Qed.

Example dumps_indent_2 :
  json_dumps_indent 2
    (JObj [(lit "a", JArr [JInt 1; JStr [233; 10; 128512]]); (lit "b", JObj [])]) =
  lines [lit "{";
         qlit "  `a`: [";
         lit "    1,";
         qlit "    `\u00e9\n\ud83d\ude00`";
         lit "  ],";
         qlit "  `b`: {}"] ++ lit "}".
Proof. vm_compute. reflexivity. Qed.

Example dumps_compact :
  json_dumps (JObj [(lit "a", JArr [JInt 1; JInt 2]); (lit "b", JNull)]) =
  qlit "{`a`: [1, 2], `b`: null}".
Proof. vm_compute. reflexivity. Qed.

(** ** The claims and the further properties on concrete inputs *)



Lemma default_rubric_without_custom_witness :
  prompts (trace (analyze (stub_service (inr (lit "{}")))
                    (example_request None))) =
  [create_audit_prompt example_transcript default_criteria].
Proof.
  exact (proj1 (default_rubric_without_custom (stub_service (inr (lit "{}")))
                  (example_request None) (lit "sk-test")
                  eq_refl eq_refl eq_refl)).
Defined.

Lemma custom_rubric_used_as_is_witness :
  prompts (trace (analyze (stub_service (inr (lit "{}")))
                    (example_request (Some tone_rubric_text)))) =
  [create_audit_prompt example_transcript
     (JObj [(lit "tone", JStr (lit "Was the agent's tone friendly?"))])].
Proof.
  refine (proj1 (custom_rubric_used_as_is (stub_service (inr (lit "{}")))
                   (example_request (Some tone_rubric_text)) (lit "sk-test")
                   [(lit "tone", JStr (lit "Was the agent's tone friendly?"))]
                   eq_refl eq_refl _ _)).
  - vm_compute. reflexivity.
  - discriminate.
Defined.

Lemma falsy_custom_rubric_defaults_witness :
  prompts (trace (analyze (stub_service (inr (lit "{}")))
                    (example_request (Some (lit "{}"))))) =
  [create_audit_prompt example_transcript default_criteria].
Proof.
  refine (proj1 (falsy_custom_rubric_defaults
                   (stub_service (inr (lit "{}")))
                   (example_request (Some (lit "{}"))) (lit "sk-test")
                   (JObj []) eq_refl eq_refl _ eq_refl)).
  vm_compute. reflexivity.
Defined.

Lemma transport_error_propagates_witness :
  analyze_transcript
    (CallAuditApp_init (stub_service (inl unauthorized)) (lit "sk-test"))
    example_transcript JNull =
  ([EvCompletion
      (request_for (create_audit_prompt example_transcript default_criteria))],
   Raise unauthorized).
Proof.
  exact (proj1 (transport_error_propagates
                  (CallAuditApp_init (stub_service (inl unauthorized))
                     (lit "sk-test"))
                  example_transcript JNull unauthorized eq_refl)).
Defined.

Lemma prompt_is_deterministic_witness :
  create_audit_prompt example_transcript default_criteria =
  create_audit_prompt example_transcript default_criteria.
Proof.
  exact (proj1 (prompt_is_deterministic example_transcript
                  example_transcript default_criteria default_criteria)
               eq_refl eq_refl).
Defined.




Lemma no_session_redirects_witness :
  analyze (stub_service (inr (lit "{}"))) anonymous_request =
  ([], Return (Redirect (lit "index"))).
Proof.
  exact (no_session_redirects (stub_service (inr (lit "{}")))
           anonymous_request eq_refl).
Defined.

Lemma empty_transcript_is_refused_witness :
  analyze (stub_service (inr (lit "{}"))) empty_request =
  ([], Return (RenderAudit (Text (lit "No transcript provided")) None None)).
Proof.
  exact (empty_transcript_is_refused (stub_service (inr (lit "{}")))
           empty_request (lit "sk-test") eq_refl eq_refl).
Defined.

Lemma scalar_response_raises_witness :
  result (audit_and_render
            (CallAuditApp_init (stub_service (inr (lit "5"))) (lit "sk-test"))
            example_transcript [] (JObj [])) =
  Raise TypeError.
Proof.
  refine (scalar_response_raises
            (CallAuditApp_init (stub_service (inr (lit "5"))) (lit "sk-test"))
            example_transcript [] (lit "5") (JObj []) (JInt 5) eq_refl _ I).
  vm_compute. reflexivity.
Defined.


Lemma login_then_audit_witness :
  session_key 1 logged_in_world = Some (lit "sk-test") /\
  audit_form 1 logged_in_world = AuditPage.
Proof.
  refine (let H := login_then_audit (stub_service (inr (lit "{}"))) 1
                     (lit "sk-test") (lit "id-1") initial_world _ in
          conj (proj1 (proj2 H)) (proj1 (proj2 (proj2 H)))).
  discriminate.
Defined.

Lemma other_sessions_untouched_witness :
  session_key 2 (act two_clients (1%nat, Logout)) = Some (lit "sk-two").
Proof.
  refine (proj1 (other_sessions_untouched 1 2 Logout two_clients (lit "id-2")
                   _ eq_refl) _ _).
  - discriminate.
  - vm_compute. discriminate.
  - intros [].
Defined.

Lemma stored_keys_are_nonempty_witness : lit "sk-test" <> [].
Proof.
  exact (stored_keys_are_nonempty
           [(1%nat, SetApiKey (Some (lit "sk-test")) (lit "id-1"))]
           1 (lit "sk-test") eq_refl).
Defined.



Lemma served_report_is_rendered_witness :
  result (analyze
            (stub_service (inr (json_dumps_indent 2 (report_json example_report))))
            (example_request None)) =
  Return (RenderResults (report_json example_report) example_transcript).
Proof.
  refine (served_report_is_rendered
            (stub_service (inr (json_dumps_indent 2 (report_json example_report))))
            (example_request None) (lit "sk-test") example_report
            (Some 2%nat) eq_refl eq_refl eq_refl _ eq_refl).
  vm_compute. reflexivity.
Defined.

Lemma rubric_is_sent_in_ascii_witness :
  ~ substring (lit "Was the agent " ++ [233])
      (prompt_head ++ json_dumps_indent 2 accented_rubric ++ prompt_middle).
Proof.
  refine (proj2 (proj2 (rubric_is_sent_in_ascii accented_rubric
                          example_transcript (lit "Was the agent " ++ [233])
                          eq_refl)) _).
  vm_compute. reflexivity.
Defined.

Lemma plain_question_is_verbatim_witness :
  substring (qlit "`tone`: `Was the agent's tone friendly?`")
    (create_audit_prompt example_transcript
       (JObj [(lit "tone", JStr (lit "Was the agent's tone friendly?"))])).
Proof.
  refine (plain_question_is_verbatim
            [(lit "tone", JStr (lit "Was the agent's tone friendly?"))]
            (lit "tone") (lit "Was the agent's tone friendly?")
            example_transcript (or_introl eq_refl) _ _).
  - vm_compute. reflexivity.
  - vm_compute. reflexivity.
Defined.

Lemma upload_is_removed_after_reading_witness :
  store_get old_files (lit "uploads/call.txt") =
    Some (lit "kept from an earlier run") /\
  store_get
    (fst (analyze_upload (stub_service (inr (lit "{}")))
            keep_name any_path ascii_text 1 logged_in_world old_files
            (Some (example_upload example_transcript))
            (Some (lit "typed text")) None))
    (lit "uploads/call.txt") = None.
Proof.
  split; [reflexivity|].
  refine (proj1 (proj2 (upload_is_removed_after_reading
                          (stub_service (inr (lit "{}")))
                          keep_name any_path ascii_text 1 logged_in_world
                          old_files (example_upload example_transcript)
                          (Some (lit "typed text")) None
                          (lit "sk-test") example_transcript
                          eq_refl eq_refl eq_refl _))).
  vm_compute. reflexivity.
Defined.

Lemma unreadable_upload_is_left_behind_witness :
  snd (analyze_upload (stub_service (inr (lit "{}")))
         keep_name any_path ascii_text 1 logged_in_world []
         (Some (example_upload [255])) None None) = ReadFailed /\
  store_get
    (fst (analyze_upload (stub_service (inr (lit "{}")))
            keep_name any_path ascii_text 1 logged_in_world []
            (Some (example_upload [255])) None None))
    (lit "uploads/call.txt") = Some [255].
Proof.
  refine (let H := unreadable_upload_is_left_behind
                     (stub_service (inr (lit "{}")))
                     keep_name any_path ascii_text 1 logged_in_world []
                     (example_upload [255]) None None (lit "sk-test")
                     eq_refl eq_refl eq_refl eq_refl in
          conj (proj1 H) (proj1 (proj2 H))).
Defined.

Lemma upload_needs_session_witness :
  analyze_upload (stub_service (inr (lit "{}")))
    keep_name any_path ascii_text 1 initial_world old_files
    (Some (example_upload example_transcript)) None None =
  (old_files, Served ([], Return (Redirect (lit "index")))).
Proof.
  exact (upload_needs_session (stub_service (inr (lit "{}")))
           keep_name any_path ascii_text 1 initial_world old_files
           (Some (example_upload example_transcript)) None None eq_refl).
Defined.

Lemma empty_upload_hides_text_area_witness :
  snd (analyze_upload (stub_service (inr (lit "{}")))
         keep_name any_path ascii_text 1 logged_in_world []
         (Some (example_upload [])) (Some example_transcript) None) =
  Served ([], Return (RenderAudit (Text (lit "No transcript provided"))
                        None None)).
Proof.
  exact (empty_upload_hides_text_area (stub_service (inr (lit "{}")))
           keep_name any_path ascii_text 1 logged_in_world []
           (example_upload []) (Some example_transcript) None (lit "sk-test")
           eq_refl eq_refl eq_refl eq_refl).
Defined.


Lemma written_rubric_is_used_witness :
  prompts
    (trace
       (analyze (stub_service (inr (lit "{}")))
          (example_request
             (Some (json_dumps
                      (JObj [(lit "tone",
                              JStr (lit "Was the agent's tone friendly?"))])))))) =
  [create_audit_prompt example_transcript
     (JObj [(lit "tone", JStr (lit "Was the agent's tone friendly?"))])].
Proof.
  refine (proj1 (written_rubric_is_used (stub_service (inr (lit "{}")))
                   (example_request
                      (Some (json_dumps
                               (JObj [(lit "tone",
                                       JStr (lit "Was the agent's tone friendly?"))]))))
                   (lit "sk-test")
                   (JObj [(lit "tone",
                           JStr (lit "Was the agent's tone friendly?"))])
                   None eq_refl eq_refl _ eq_refl eq_refl)).
  vm_compute. reflexivity.
Defined.
